(** * The J&K catalogue scraper ([scrape_products_4.py]): model and properties

    A shallow embedding of the crawl engine of [scrape_products_4.py]:
    the image-name helpers ([sanitize_filename], [strip_resolution_suffix]),
    the listing-page link extractor ([parse_collection_page]), the
    product-page parser ([parse_product_page]) and the orchestrator
    ([process_category]).

    Conventions.
    - A Python [str] is a [string]; a character is an [ascii], that is a
      code point below 256.  On that range [\d] is exactly [0-9].
    - Regular expressions are kept as syntax ([Re.regex]) and run by a
      backtracking matcher with Python's priorities (greedy repetition,
      leftmost match, [$] also before a final line feed).
    - Library calls whose result only depends on the fetched document
      (BeautifulSoup queries, [json.loads]) are read off a record that
      describes the document by the answers to those queries.
    - The HTTP session is threaded explicitly: every request takes the
      current state of the outside world and returns the next one. *)

From Stdlib Require Import Ascii String NArith Lia.
From stdpp Require Import base option list strings gmap pretty.

#[local] Set Warnings "-clear-no-such-hyp".

Local Open Scope char_scope.
Local Open Scope stdpp_scope.

(** ** Characters and Python string methods *)

Module Py.

Definition code (c : ascii) : N := N_of_ascii c.

Definition between (lo hi c : ascii) : bool :=
  ((code lo <=? code c)%N && (code c <=? code hi)%N)%bool.

Definition is_digit (c : ascii) : bool := between "0" "9" c.
Definition is_alpha (c : ascii) : bool := between "A" "Z" c || between "a" "z" c.
Definition is_alnum (c : ascii) : bool := is_alpha c || is_digit c.

Definition LF : ascii := "010".

(** [str.isspace] on code points below 256. *)
Definition is_space (c : ascii) : bool :=
  between "009" "013" c || between "028" "032" c
  || Ascii.eqb c "133" || Ascii.eqb c "160".

Fixpoint all (P : ascii → bool) (s : string) : bool :=
  match s with
  | EmptyString => true
  | String c t => P c && all P t
  end.

Fixpoint mem (a : ascii) (s : string) : bool :=
  match s with
  | EmptyString => false
  | String c t => Ascii.eqb c a || mem a t
  end.

Fixpoint map (f : ascii → ascii) (s : string) : string :=
  match s with
  | EmptyString => EmptyString
  | String c t => String (f c) (map f t)
  end.

(** [bool(s)] for a string. *)
Definition truthy (s : string) : bool :=
  match s with EmptyString => false | String _ _ => true end.

(** [s.startswith(p)] *)
Definition startswith (p s : string) : bool := String.prefix p s.

(** [s.partition(sep)] for a one-character separator: the text before
    the first [sep], whether one was found, and the text after it. *)
Fixpoint partition (sep : ascii) (s : string) : string * bool * string :=
  match s with
  | EmptyString => (EmptyString, false, EmptyString)
  | String c t =>
      if Ascii.eqb c sep then (EmptyString, true, t)
      else let '(b, found, q) := partition sep t in (String c b, found, q)
  end.

(** [s.split(sep)[0]] for a one-character separator. *)
Fixpoint split_head (sep : ascii) (s : string) : string :=
  match s with
  | EmptyString => EmptyString
  | String c t => if Ascii.eqb c sep then EmptyString else String c (split_head sep t)
  end.

(** [posixpath.basename]: [p[p.rfind('/') + 1:]]. *)
Fixpoint basename (s : string) : string :=
  match s with
  | EmptyString => EmptyString
  | String c t =>
      if mem "/" t then basename t
      else if Ascii.eqb c "/" then t else s
  end.

Fixpoint lstrip (s : string) : string :=
  match s with
  | EmptyString => EmptyString
  | String c t => if is_space c then lstrip t else s
  end.

Fixpoint rstrip (s : string) : string :=
  match s with
  | EmptyString => EmptyString
  | String c t =>
      match rstrip t with
      | EmptyString => if is_space c then EmptyString else String c EmptyString
      | t' => String c t'
      end
  end.

(** [s.strip()] *)
Definition strip (s : string) : string := rstrip (lstrip s).

End Py.

(** ** The fragment of Python's [re] that the scraper uses *)

Module Re.

Inductive regex : Type :=
| Cls (P : ascii → bool)                       (* one character of a class *)
| Rep (P : ascii → bool) (lo : nat) (hi : option nat)
                                               (* [P{lo,hi}], [P*], [P+]: greedy *)
| Cat (r1 r2 : regex)                          (* [r1 r2] *)
| Eol                                          (* [$] *)
| Ahead (r : regex).                           (* [(?=r)] *)

(** [$] without [re.MULTILINE]: at the end of the text, or just before
    a line feed that is its last character. *)
Definition at_eol (s : string) : bool :=
  match s with
  | EmptyString => true
  | String c EmptyString => Ascii.eqb c Py.LF
  | _ => false
  end.

Definition room (hi : option nat) : bool :=
  match hi with Some 0 => false | _ => true end.

(** The matcher is written with a continuation [k] for the rest of the
    pattern; it returns what [k] returns on the text left after the
    match (for a whole pattern: that text itself). *)

(** Greedy repetition with backtracking: first try to take one more
    character, and only when the rest of the pattern then fails,
    stop here. *)
Fixpoint rep (P : ascii → bool) (lo : nat) (hi : option nat)
    (s : string) (k : string → option string) : option string :=
  let stop := match lo with 0 => k s | S _ => None end in
  match s with
  | String c t =>
      if (P c && room hi)%bool then
        match rep P (Nat.pred lo) (Nat.pred <$> hi) t k with
        | Some x => Some x
        | None => stop
        end
      else stop
  | EmptyString => stop
  end.

(** [exec r s k]: match [r] at the start of [s], then hand the rest
    of the text to [k]; the first success in priority order wins. *)
Fixpoint exec (r : regex) (s : string) (k : string → option string) : option string :=
  match r with
  | Cls P =>
      match s with
      | String c t => if P c then k t else None
      | EmptyString => None
      end
  | Rep P lo hi => rep P lo hi s k
  | Cat r1 r2 => exec r1 s (λ t, exec r2 t k)
  | Eol => if at_eol s then k s else None
  | Ahead r' =>
      match exec r' s Some with
      | Some _ => k s
      | None => None
      end
  end.

(** A match of [r] at the start of [s]: the number of characters it
    spans. *)
Definition match_at (r : regex) (s : string) : option nat :=
  (λ rest, String.length s - String.length rest) <$> exec r s Some.

(** [re.sub(r, repl, s)] for a pattern that never matches the empty
    text: scan from the left; where a match of [n] characters starts,
    emit [repl] and resume after it ([skip] counts the characters of
    the current match still to be dropped). *)
Fixpoint sub_go (r : regex) (repl : string) (skip : nat) (s : string) : string :=
  match s with
  | EmptyString => EmptyString
  | String c t =>
      match skip with
      | S n => sub_go r repl n t
      | 0 =>
          match match_at r s with
          | Some (S n) => repl +:+ sub_go r repl n t
          | _ => String c (sub_go r repl 0 t)
          end
      end
  end.

Definition sub (r : regex) (repl s : string) : string := sub_go r repl 0 s.

(** [re.search(r, s).group(0)], or [None]. *)
Fixpoint search (r : regex) (s : string) : option string :=
  match match_at r s with
  | Some n => Some (String.substring 0 n s)
  | None =>
      match s with
      | EmptyString => None
      | String _ t => search r t
      end
  end.

Definition chr (a : ascii) : regex := Cls (Ascii.eqb a).
Definition star (P : ascii → bool) : regex := Rep P 0 None.
Definition plus (P : ascii → bool) : regex := Rep P 1 None.
Definition any (c : ascii) : bool := negb (Ascii.eqb c Py.LF).   (* [.] *)

End Re.

Declare Scope re_scope.
Delimit Scope re_scope with re.
Infix "⋅" := Re.Cat (at level 41, right associativity) : re_scope.

(** ** ImageResolver: [sanitize_filename] and [strip_resolution_suffix] *)

(** [[^A-Za-z0-9_.-]] *)
Definition unsafe_char (c : ascii) : bool :=
  negb (Py.is_alnum c || Ascii.eqb c "_" || Ascii.eqb c "." || Ascii.eqb c "-").

Definition sanitize_filename (filename : string) : string :=
  let filename := Py.split_head "?" filename in
  let filename := Py.basename filename in
  Re.sub (Re.Cls unsafe_char) "_" filename.

(** [_(\d{2,5}x\d{2,5})(?=\.[A-Za-z]+$)] *)
Definition resolution_suffix : Re.regex :=
  (Re.chr "_" ⋅ Re.Rep Py.is_digit 2 (Some 5) ⋅ Re.chr "x" ⋅ Re.Rep Py.is_digit 2 (Some 5)
   ⋅ Re.Ahead (Re.chr "." ⋅ Re.plus Py.is_alpha ⋅ Re.Eol))%re.

Definition strip_resolution_suffix (url : string) : string :=
  let '(base, sep, query) := Py.partition "?" url in
  let new_base := Re.sub resolution_suffix "" base in
  new_base +:+ (if sep then "?" +:+ query else "").


(** ** Exceptions

    A computation that either returns or raises; [try ... except
    Exception] is a [match] on it. *)

Inductive exn (A : Type) : Type :=
| Ret (a : A)
| Raise.
Arguments Ret {A} a.
Arguments Raise {A}.

#[global] Instance exn_ret : MRet exn := λ A a, Ret a.
#[global] Instance exn_bind : MBind exn := λ A B f m,
  match m with
  | Ret a => f a
  | Raise => Raise
  end.

(** ** Fetched documents *)

(** A value decoded by [json.loads].  Numbers only occur in truth
    tests, an integer stands for them. *)
#[warnings="-register-all"]
Inductive json : Type :=
| JNull
| JBool (b : bool)
| JNum (n : Z)
| JStr (s : string)
| JList (l : list json)
| JDict (d : list (string * json)).

(** [bool(v)] *)
Definition json_truthy (v : json) : bool :=
  match v with
  | JNull => false
  | JBool b => b
  | JNum n => negb (n =? 0)%Z
  | JStr s => Py.truthy s
  | JList l => match l with [] => false | _ => true end
  | JDict d => match d with [] => false | _ => true end
  end.

(** [isinstance(v, dict)] *)
Definition is_dict (v : json) : bool :=
  match v with JDict _ => true | _ => false end.

(** [d.get(key)] on the entries of a dict; absent keys give [None]. *)
Fixpoint dict_get (key : string) (d : list (string * json)) : json :=
  match d with
  | [] => JNull
  | (k, v) :: d' => if String.eqb k key then v else dict_get key d'
  end.

(** [v.get(key) if isinstance(v, dict) else None] *)
Definition get_if_dict (key : string) (v : json) : json :=
  match v with
  | JDict d => dict_get key d
  | _ => JNull
  end.

(** The [data-events] attribute of one [<script>] tag. *)
Inductive data_events : Type :=
| EmptyAttr                 (* the attribute is there and empty *)
| Malformed                 (* [html.unescape]/[json.loads] raises on it *)
| Events (decoded : json).  (* what [json.loads(html.unescape(raw))] returns *)

(** An element of the page, seen through [elem.find("a", href=True)]:
    the [href] of the first anchor that has one. *)
Record element : Type := { anchor_href : option string }.

(** A parsed document ([BeautifulSoup(response.text, "html.parser")]),
    described by the answers to the queries that the scraper makes.
    The queries of the product parser may raise: the parser provides
    for it with the handler around its body. *)
Record soup : Type := {
  (* listing pages *)
  data_event_scripts : list data_events;
      (* [find_all('script', attrs={'data-events': True})] *)
  select : string → list element;
      (* [select(sel)] *)
  product_class_elements : list element;
      (* [find_all(True, class_=re.compile("product"))] *)
  (* product pages *)
  h1_text : exn (option string);
      (* [find("h1")], then [get_text(strip=True)] *)
  price_text : exn (option string);
      (* [find(class_=re.compile("price"))], then [get_text(strip=True)] *)
  select_one_text : string → exn (option string);
      (* [select_one(sel)], then [get_text(" ", strip=True)] *)
  meta_description : exn (option (option string));
      (* [find("meta", attrs={"name": "description"})] and its [content] *)
  og_image : exn (option (option string));
      (* [find("meta", property="og:image")] and its [content] *)
  img_src : exn (option string);
      (* [find("img", src=True)] and its [src] *)
}.

(** ** ProductLinkExtractor: [parse_collection_page] *)

Definition parse_product_card (card : element) : option string :=
  match anchor_href card with
  | None => None
  | Some href => Some (Py.strip href)
  end.

(** [for x in v]: the items that the loop sees, or [TypeError]. *)
Definition py_iter (v : json) : exn (list json) :=
  match v with
  | JList l => Ret l
  | JDict d => Ret (JStr <$> d.*1)
  | JStr s => Ret ((λ c, JStr (String c EmptyString)) <$> list_ascii_of_string s)
  | JNull | JBool _ | JNum _ => Raise
  end.

(** The body of [for variant in variants]: the URL to append, if any. *)
Definition variant_url (variant : json) : exn (option string) :=
  let prod := get_if_dict "product" variant in
  if (json_truthy prod && is_dict prod)%bool then
    let url := get_if_dict "url" prod in
    if json_truthy url then
      match url with
      | JStr s => Ret (Some (Py.strip s))
      | _ => Raise                        (* [url.strip()]: AttributeError *)
      end
    else Ret None
  else Ret None.

Fixpoint variants_loop (variants : list json) (product_urls : list string)
    : exn (list string) :=
  match variants with
  | [] => Ret product_urls
  | variant :: rest =>
      u ← variant_url variant;
      variants_loop rest (match u with Some url => product_urls ++ [url] | None => product_urls end)
  end.

(** The body of [for ev in events]. *)
Definition event_urls (ev : json) (product_urls : list string) : exn (list string) :=
  match ev with
  | JList [JStr name; details] =>
      if String.eqb name "collection_viewed" then
        let collection_info := get_if_dict "collection" details in
        if (json_truthy collection_info && is_dict collection_info)%bool then
          let variants := get_if_dict "productVariants" collection_info in
          match variants with
          | JList ((_ :: _) as vs) => variants_loop vs product_urls
          | _ => Ret product_urls
          end
        else Ret product_urls
      else Ret product_urls
  | _ => Ret product_urls
  end.

Fixpoint events_loop (events : list json) (product_urls : list string)
    : exn (list string) :=
  match events with
  | [] => Ret product_urls
  | ev :: rest => urls ← event_urls ev product_urls; events_loop rest urls
  end.

(** [for s in scripts], with its [continue] and [break]. *)
Fixpoint scripts_loop (scripts : list data_events) (product_urls : list string)
    : exn (list string) :=
  match scripts with
  | [] => Ret product_urls
  | s :: rest =>
      match s with
      | EmptyAttr => scripts_loop rest product_urls
      | Malformed => Raise
      | Events events =>
          evs ← py_iter events;
          urls ← events_loop evs product_urls;
          match urls with
          | [] => scripts_loop rest urls
          | _ :: _ => Ret urls
          end
      end
  end.

(** The [try] block and its handler: the structured-data strategy. *)
Definition structured_data_urls (pg : soup) : list string :=
  match scripts_loop (data_event_scripts pg) [] with
  | Ret product_urls => product_urls
  | Raise => []
  end.

Definition selectors : list string :=
  ["div.grid__item"; "div.product-card"; "li.grid__item"; "li.product-card"].

(** [for sel in selectors: cards = soup.select(sel); if cards: break] *)
Fixpoint select_cards (pg : soup) (sels : list string) (cards : list element)
    : list element :=
  match sels with
  | [] => cards
  | sel :: rest =>
      match select pg sel with
      | [] => select_cards pg rest []
      | cards' => cards'
      end
  end.

(** [for card in cards: url = parse_product_card(card); if url: append] *)
Fixpoint card_urls (cards : list element) (product_urls : list string) : list string :=
  match cards with
  | [] => product_urls
  | card :: rest =>
      match parse_product_card card with
      | Some (String _ _ as url) => card_urls rest (product_urls ++ [url])
      | _ => card_urls rest product_urls
      end
  end.

(** The last resort: the first anchor of every element whose class
    matches [product]. *)
Fixpoint generic_urls (elems : list element) (product_urls : list string) : list string :=
  match elems with
  | [] => product_urls
  | elem :: rest =>
      match anchor_href elem with
      | Some (String _ _ as href) => generic_urls rest (product_urls ++ [Py.strip href])
      | _ => generic_urls rest product_urls
      end
  end.

(** [parse_collection_page] after [get_soup]. *)
Definition collection_links (page : option soup) : list string :=
  match page with
  | None => []
  | Some pg =>
      match structured_data_urls pg with
      | [] =>
          match select_cards pg selectors [] with
          | [] => generic_urls (product_class_elements pg) []
          | cards => card_urls cards []
          end
      | product_urls => product_urls
      end
  end.

(** ** ProductPageParser: [parse_product_page] *)

(** The float that [float(literal)] returns.  Floating-point values are
    not modelled: a price is kept as the text it was read from. *)
Inductive pyfloat : Type := Float (literal : string).

Module Product.
Record t : Type := make {
  id : string;
  name : string;
  price : option pyfloat;
  description : string;
  image : string;        (* local filename of the downloaded image *)
}.
End Product.

Definition BASE_URL : string := "https://www.jkcabinetry.com".

(** [([A-Za-z0-9]+/[A-Za-z0-9]+)] *)
Definition product_id_pattern : Re.regex :=
  (Re.plus Py.is_alnum ⋅ Re.chr "/" ⋅ Re.plus Py.is_alnum)%re.

(** [[^0-9.]+] *)
Definition not_price_chars : Re.regex :=
  Re.plus (λ c, negb (Py.is_digit c || Ascii.eqb c ".")).

Fixpoint count (a : ascii) (s : string) : nat :=
  match s with
  | EmptyString => 0
  | String c t => (if Ascii.eqb c a then 1 else 0) + count a t
  end.

(** [float(cleaned)] on a text of digits and dots, which is all that
    reaches it: [ValueError] unless there is a digit and at most one dot. *)
Definition float_of (cleaned : string) : exn pyfloat :=
  if (Py.all (λ c, Py.is_digit c || Ascii.eqb c ".") cleaned
      && negb (Py.all (Ascii.eqb ".") cleaned)
      && (count "." cleaned <=? 1)%nat)%bool
  then Ret (Float cleaned)
  else Raise.

Definition extract_price (pg : soup) : exn (option pyfloat) :=
  price_elem ← price_text pg;
  match price_elem with
  | None => Ret None
  | Some price_text =>
      let cleaned := Re.sub not_price_chars "" price_text in
      if Py.truthy cleaned then
        match float_of cleaned with
        | Ret x => Ret (Some x)
        | Raise => Ret None              (* [except ValueError] *)
        end
      else Ret None
  end.

Definition desc_selectors : list string :=
  ["div.product-description"; "div#ProductDescription";
   "div#product_description"; "div[itemprop='description']"].

(** [for sel in desc_selectors: ... break] *)
Fixpoint description_loop (pg : soup) (sels : list string) : exn string :=
  match sels with
  | [] => Ret ""
  | sel :: rest =>
      desc_elem ← select_one_text pg sel;
      match desc_elem with
      | Some text => Ret text
      | None => description_loop pg rest
      end
  end.

Definition extract_description (pg : soup) : exn string :=
  desc ← description_loop pg desc_selectors;
  if Py.truthy desc then Ret desc
  else
    meta_desc ← meta_description pg;
    match meta_desc with
    | Some content => Ret (Py.strip (default "" content))
    | None => Ret desc
    end.

Definition extract_image_url (pg : soup) : exn string :=
  og ← og_image pg;
  match og with
  | Some (Some (String _ _ as content)) => Ret (Py.strip content)
  | _ =>
      img_elem ← img_src pg;
      match img_elem with
      | Some src => Ret (Py.strip src)
      | None => Ret ""
      end
  end.

(** The body of the [try] block of [parse_product_page]. *)
Definition extract_product (pg : soup) : exn (option (Product.t * string)) :=
  title_elem ← h1_text pg;
  let title := default "" title_elem in
  let product_id := default title (Re.search product_id_pattern title) in
  price ← extract_price pg;
  desc ← extract_description pg;
  image_url ← extract_image_url pg;
  if Py.truthy image_url then
    let high_res_url := strip_resolution_suffix image_url in
    let filename := sanitize_filename high_res_url in
    let filename := Re.sub resolution_suffix "" filename in
    Ret (Some (Product.make product_id title price desc filename, high_res_url))
  else Ret None.

(** [parse_product_page] after [get_soup]. *)
Definition product_of_page (page : option soup) : option (Product.t * string) :=
  match page with
  | None => None
  | Some pg =>
      match extract_product pg with
      | Ret result => result
      | Raise => None                      (* [except Exception: return None] *)
      end
  end.

(** ** CrawlOrchestrator: [process_category] *)

Definition STYLE_CODES : list string :=
  ["s8"; "s1"; "s2"; "s5"; "k3"; "h9"; "h8"; "h3"; "a7"; "c066"; "m01"; "k10"; "k8"; "j5"].

Definition max_pages : nat := 20.

Record category : Type := { cat_id : string; cat_name : string; cat_slug : string }.

(** [[/?#].*$] *)
Definition key_pattern : Re.regex :=
  (Re.Cls (λ c, Ascii.eqb c "/" || Ascii.eqb c "?" || Ascii.eqb c "#")
   ⋅ Re.star Re.any ⋅ Re.Eol)%re.

(** The deduplication key of a product URL:
    [re.sub(r"[/?#].*$", "", full_url)]. *)
Definition dedup_key (full_url : string) : string := Re.sub key_pattern "" full_url.

(** [posixpath.join(a, b)] *)
Definition path_join (a b : string) : string :=
  if Py.startswith "/" b then b
  else if (negb (Py.truthy a) || Py.startswith "/" (String.rev a))%bool then a +:+ b
  else a +:+ "/" +:+ b.

(** [resp.raise_for_status()] raises on a 4xx or 5xx status. *)
Definition http_error (status : nat) : bool :=
  ((400 <=? status)%nat && (status <? 600)%nat)%bool.

Record response : Type := {
  status_code : nat;
  text : soup;             (* [response.text], as BeautifulSoup parses it *)
}.

(** What the crawl did, newest first. *)
Inductive event : Type :=
| Listing (page : nat) (url : string) (links : list string)
    (* [parse_collection_page] was called for this page and returned [links] *)
| Detail (url : string) (found : bool)
    (* [parse_product_page] was called; [found]: it returned a result *)
| Download (url dest : string) (ok : bool)
    (* [download_image] was called and returned [ok] *)
| Put (key : string) (product : Product.t).
    (* [collected[key] = product] *)

Section Orchestrator.

(** The outside world: the site and the session's cookies are a state
    [W] that every request may change; [session_get] is
    [session.get(url, ...)], which returns a response or raises.
    [urljoin] is [requests.compat.urljoin], taken where it returns: on
    a link that it rejects ([ValueError], for a malformed authority)
    the crawl of the category ends with the exception, and what is
    stated of every point of a trace holds up to there. *)
Context {W : Type}.
Variable urljoin : string → string → string.
Variable session_get : W → string → W * exn response.

Record crawl : Type := {
  world : W;
  files : gset string;                  (* the paths that exist on disk *)
  collected : gmap string Product.t;    (* the category's catalog *)
  trace : list event;
}.

Definition get_soup (w : W) (url : string) : W * option soup :=
  let '(w, r) := session_get w url in
  (w, match r with
      | Ret resp => if decide (status_code resp = 200) then Some (text resp) else None
      | Raise => None
      end).

Definition parse_collection_page (w : W) (collection_url : string) : W * list string :=
  let '(w, page) := get_soup w collection_url in
  (w, collection_links page).

Definition parse_product_page (w : W) (product_url : string)
    : W * option (Product.t * string) :=
  let product_url :=
    if Py.startswith "http" product_url then product_url
    else urljoin BASE_URL product_url in
  let '(w, page) := get_soup w product_url in
  (w, product_of_page page).

(** [download_image]: the new world, the files on disk, and whether
    the download succeeded.  Writing the file itself does not fail: an
    [OSError] of [open] or [write] is left out. *)
Definition download_image (w : W) (fs : gset string) (url dest_path : string)
    : W * gset string * bool :=
  let '(w, r) := session_get w url in
  match r with
  | Ret resp =>
      if http_error (status_code resp) then (w, fs, false)
      else (w, {[dest_path]} ∪ fs, true)
  | Raise => (w, fs, false)
  end.

(** [link if link.startswith("http") else urljoin(BASE_URL, link)] *)
Definition absolute (link : string) : string :=
  if Py.startswith "http" link then link else urljoin BASE_URL link.

(** [for link in product_links: ...]: the links whose key this style
    has not seen, and the seen-set with their keys added. *)
Fixpoint filter_new (product_links : list string) (seen_links : gset string)
    (new_links : list string) : gset string * list string :=
  match product_links with
  | [] => (seen_links, new_links)
  | link :: rest =>
      let full_url := absolute link in
      let key := dedup_key full_url in
      if decide (key ∈ seen_links) then filter_new rest seen_links new_links
      else filter_new rest ({[key]} ∪ seen_links) (new_links ++ [full_url])
  end.

(** The body of [for full_url in new_links]. *)
Definition visit (category_folder : string) (st : crawl) (full_url : string) : crawl :=
  let key := dedup_key full_url in
  match collected st !! key with
  | Some _ => st                                         (* [continue] *)
  | None =>
      let '(w, result) := parse_product_page (world st) full_url in
      match result with
      | None =>
          {| world := w; files := files st; collected := collected st;
             trace := Detail full_url false :: trace st |}
      | Some (product, img_url) =>
          let dest_img_path := path_join category_folder (Product.image product) in
          let tr := Detail full_url true :: trace st in
          let '(w, fs, tr) :=
            if (Py.truthy (Product.image product)
                && negb (bool_decide (dest_img_path ∈ files st)))%bool
            then
              let '(w, fs, ok) := download_image w (files st) img_url dest_img_path in
              (w, fs, Download img_url dest_img_path ok :: tr)
            else (w, files st, tr) in
          {| world := w; files := fs;
             collected := <[key := product]> (collected st);
             trace := Put key product :: tr |}
      end
  end.

(** How one turn of the [while] loop ends. *)
Inductive turn : Type :=
| Break (st : crawl)
| NextPage (seen_links : gset string) (st : crawl).

(** The body of [while page <= max_pages]. *)
Definition page_turn (category_folder base_collection : string) (page : nat)
    (seen_links : gset string) (st : crawl) : turn :=
  let url :=
    if decide (page = 1) then base_collection
    else base_collection +:+ "?page=" +:+ pretty page in
  let '(w, product_links) := parse_collection_page (world st) url in
  let st := {| world := w; files := files st; collected := collected st;
               trace := Listing page url product_links :: trace st |} in
  match product_links with
  | [] => Break st
  | _ :: _ =>
      let '(seen_links, new_links) := filter_new product_links seen_links [] in
      match new_links with
      | [] => Break st
      | _ :: _ => NextPage seen_links (foldl (visit category_folder) st new_links)
      end
  end.

(** The [while] loop; [fuel] bounds the number of turns and
    [max_pages] turns of fuel are never used up. *)
Fixpoint paginate (fuel : nat) (category_folder base_collection : string)
    (page : nat) (seen_links : gset string) (st : crawl) : crawl :=
  match fuel with
  | 0 => st
  | S fuel =>
      if decide (page ≤ max_pages) then
        match page_turn category_folder base_collection page seen_links st with
        | Break st => st
        | NextPage seen_links st =>
            paginate fuel category_folder base_collection (page + 1) seen_links st
        end
      else st
  end.

(** The body of [for style in STYLE_CODES]. *)
Definition process_style (cat : category) (st : crawl) (style : string) : crawl :=
  let category_folder := path_join "output" (cat_id cat) in
  let base_collection := BASE_URL +:+ "/collections/" +:+ style +:+ "-" +:+ cat_slug cat in
  paginate max_pages category_folder base_collection 1 ∅ st.

(** [process_category], from the loop over the styles up to the
    serialization of [collected]; [fs] are the paths that exist when
    the loop starts, the category folder having been made. *)
Definition process_category (w : W) (fs : gset string) (cat : category) : crawl :=
  foldl (process_style cat)
    {| world := w; files := fs; collected := ∅; trace := [] |} STYLE_CODES.

End Orchestrator.

(** The catalog after the events of [t]: every [Put] is a dict
    assignment. *)
Fixpoint catalog_of (t : list event) : gmap string Product.t :=
  match t with
  | [] => ∅
  | Put key product :: t' => <[key := product]> (catalog_of t')
  | _ :: t' => catalog_of t'
  end.

(** The listing pages fetched by the events of [t], oldest first. *)
Fixpoint listings (t : list event) : list (nat * list string) :=
  match t with
  | [] => []
  | Listing page _ links :: t' => listings t' ++ [(page, links)]
  | _ :: t' => listings t'
  end.

(** ** Notions used in the statements *)

(** The longest prefix of [s] whose characters satisfy [P], and the rest. *)
Fixpoint span (P : ascii → bool) (s : string) : string * string :=
  match s with
  | EmptyString => (EmptyString, EmptyString)
  | String c t =>
      if P c then let '(a, b) := span P t in (String c a, b)
      else (EmptyString, s)
  end.

(** [lo ≤ n ≤ hi], for the bounds of a repetition. *)
Definition within (lo : nat) (hi : option nat) (n : nat) : bool :=
  ((lo <=? n)%nat && match hi with Some h => (n <=? h)%nat | None => true end)%bool.

(** The text strictly before the first character that satisfies [P]. *)
Fixpoint prefix_before (P : ascii → bool) (s : string) : string :=
  match s with
  | EmptyString => EmptyString
  | String c t => if P c then EmptyString else String c (prefix_before P t)
  end.

Definition key_delimiter (c : ascii) : bool :=
  Ascii.eqb c "/" || Ascii.eqb c "?" || Ascii.eqb c "#".

(** An absolute URL with its query string and fragment stripped: its
    scheme, host and path. *)
Definition scheme_host_path (url : string) : string :=
  prefix_before (λ c, Ascii.eqb c "?" || Ascii.eqb c "#") url.

(** A dimension of a resolution marker: 2 to 5 digits. *)
Definition dimension (d : string) : Prop :=
  Py.all Py.is_digit d = true ∧ 2 ≤ String.length d ≤ 5.

(** A file extension: one or more letters. *)
Definition extension (e : string) : Prop :=
  Py.all Py.is_alpha e = true ∧ 1 ≤ String.length e.

(** [base] ends in a marker [_WxH] right before its extension. *)
Definition ends_in_marker (base : string) : Prop :=
  ∃ p w h e, base = p +:+ "_" +:+ w +:+ "x" +:+ h +:+ "." +:+ e
             ∧ dimension w ∧ dimension h ∧ extension e.

(** What [sanitize_filename] puts for a character. *)
Definition safe_char (c : ascii) : ascii := if unsafe_char c then "_" else c.

(** The image reference that the product parser settles on when no
    query raises: the [og:image] content if there is one, else the
    [src] of the first image. *)
Definition image_reference (og : option (option string)) (img : option string) : string :=
  match og with
  | Some (Some (String _ _ as content)) => Py.strip content
  | _ => match img with Some src => Py.strip src | None => "" end
  end.

(** ** Documents and sites of the examples *)

Definition blank_page : soup := {|
  data_event_scripts := [];
  select := λ _, [];
  product_class_elements := [];
  h1_text := Ret None;
  price_text := Ret None;
  select_one_text := λ _, Ret None;
  meta_description := Ret None;
  og_image := Ret None;
  img_src := Ret None;
|}.

(** A listing page whose cards are [div.grid__item] elements. *)
Definition listing_page (hrefs : list string) : soup := {|
  data_event_scripts := [];
  select := λ sel,
    if String.eqb sel "div.grid__item"
    then (λ href, {| anchor_href := Some href |}) <$> hrefs else [];
  product_class_elements := [];
  h1_text := Ret None;
  price_text := Ret None;
  select_one_text := λ _, Ret None;
  meta_description := Ret None;
  og_image := Ret None;
  img_src := Ret None;
|}.

(** A product page with a title, a price and an [og:image]. *)
Definition detail_page (title price image_url : string) : soup := {|
  data_event_scripts := [];
  select := λ _, [];
  product_class_elements := [];
  h1_text := Ret (Some title);
  price_text := Ret (Some price);
  select_one_text := λ _, Ret None;
  meta_description := Ret None;
  og_image := Ret (Some (Some image_url));
  img_src := Ret None;
|}.

(** A product page with an [og:image], on which reading the title
    raises. *)
Definition title_raises_page : soup := {|
  data_event_scripts := [];
  select := λ _, [];
  product_class_elements := [];
  h1_text := Raise;
  price_text := Ret (Some "$312.00");
  select_one_text := λ _, Ret None;
  meta_description := Ret None;
  og_image := Ret (Some (Some "https://cdn.shopify.com/s/files/S8-SB30.jpg"));
  img_src := Ret None;
|}.

(** [urljoin] on the links of the examples: a path from the root is put
    after the origin, any other link is kept. *)
Definition example_urljoin (base link : string) : string :=
  if Py.startswith "/" link then base +:+ link else link.

Definition ok (pg : soup) : exn response := Ret {| status_code := 200; text := pg |}.
Definition not_found : exn response := Ret {| status_code := 404; text := blank_page |}.

Definition sink_base : category :=
  {| cat_id := "689cba9eca19d8fef712c080";
     cat_name := "Sink Base Cabinet";
     cat_slug := "sink-base-cabinet" |}.

(** A site whose first listing of style [s8] links one product with
    [https] and one with [http]; the image of the first cannot be
    fetched. *)
Definition two_scheme_site (w : unit) (url : string) : unit * exn response :=
  (w,
   if String.eqb url "https://www.jkcabinetry.com/collections/s8-sink-base-cabinet" then
     ok (listing_page ["https://www.jkcabinetry.com/products/s8-sb30";
                       "http://www.jkcabinetry.com/products/s8-sb33"])
   else if String.eqb url "https://www.jkcabinetry.com/products/s8-sb30" then
     ok (detail_page "S8/SB30 Sink Base" "$312.00"
           "https://cdn.shopify.com/s/files/S8-SB30_352x192.jpg?v=1")
   else if String.eqb url "http://www.jkcabinetry.com/products/s8-sb33" then
     ok (detail_page "S8/SB33 Sink Base" "$334.00"
           "https://cdn.shopify.com/s/files/S8-SB33_352x192.jpg?v=1")
   else if String.eqb url "https://cdn.shopify.com/s/files/S8-SB33.jpg?v=1" then
     ok blank_page
   else not_found).

(** A site that answers every listing request with the same two
    products, whatever the page. *)
Definition repeating_site (w : unit) (url : string) : unit * exn response :=
  (w,
   if Py.startswith "https://www.jkcabinetry.com/collections/" url then
     ok (listing_page ["/products/s8-sb30"; "/products/s8-sb33?variant=1"])
   else if Py.startswith "https://www.jkcabinetry.com/products/" url then
     ok (detail_page "S8/SB30 Sink Base" "$312.00"
           "https://cdn.shopify.com/s/files/S8-SB30_352x192.jpg?v=1")
   else ok blank_page).

(** A site that answers the [n]-th request, when it is for a listing,
    with a link never seen before. *)
Definition endless_site (n : nat) (url : string) : nat * exn response :=
  (S n,
   if Py.startswith "https://www.jkcabinetry.com/collections/" url then
     ok (listing_page ["mailto:sales+" +:+ pretty n +:+ "@jkcabinetry.com"])
   else not_found).

(** The page with its [data-events] scripts taken out. *)
Definition without_scripts (pg : soup) : soup := {|
  data_event_scripts := [];
  select := select pg;
  product_class_elements := product_class_elements pg;
  h1_text := h1_text pg;
  price_text := price_text pg;
  select_one_text := select_one_text pg;
  meta_description := meta_description pg;
  og_image := og_image pg;
  img_src := img_src pg;
|}.

(** The [content] of the [og:image] tag, empty when the tag or the
    attribute is missing. *)
Definition og_content (og : option (option string)) : string :=
  match og with
  | Some (Some content) => content
  | _ => ""
  end.

(** The price that the parser reads off the text of the price element
    when that query returns. *)
Definition price_of (price_elem : option string) : option pyfloat :=
  match price_elem with
  | None => None
  | Some price_text =>
      let cleaned := Re.sub not_price_chars "" price_text in
      if Py.truthy cleaned then
        match float_of cleaned with
        | Ret x => Some x
        | Raise => None
        end
      else None
  end.

(** The text of the first description container that exists. *)
Fixpoint first_description (descs : string → option string) (sels : list string) : string :=
  match sels with
  | [] => ""
  | sel :: rest =>
      match descs sel with
      | Some text => text
      | None => first_description descs rest
      end
  end.

Definition description_of (descs : string → option string)
    (meta : option (option string)) : string :=
  let desc := first_description descs desc_selectors in
  if Py.truthy desc then desc
  else match meta with
       | Some content => Py.strip (default "" content)
       | None => desc
       end.

(** ** Notions about traces *)

(** Every [Put] of the trace was for a key that the catalog did not
    have. *)
Fixpoint puts_fresh (t : list event) : Prop :=
  match t with
  | [] => True
  | Put key _ :: t' => catalog_of t' !! key = None ∧ puts_fresh t'
  | _ :: t' => puts_fresh t'
  end.

(** Events that touch neither the catalog nor the listings. *)
Definition quiet (e : event) : Prop :=
  match e with
  | Detail _ _ | Download _ _ _ => True
  | Listing _ _ _ | Put _ _ => False
  end.

Section Notions.
Variable urljoin : string → string → string.

(** The keys of the links of a listing page. *)
Definition keys_of (links : list string) : gset string :=
  list_to_set (dedup_key ∘ absolute urljoin <$> links).

(** The keys of the links of some listing pages. *)
Definition keys_of_pages (pages : list (nat * list string)) : gset string :=
  keys_of (concat (pages.*2)).

(** [url] is the absolute form of a link of a listing fetched in [t]. *)
Definition listed (t : list event) (url : string) : Prop :=
  ∃ page from links link,
    Listing page from links ∈ t ∧ link ∈ links ∧ url = absolute urljoin link.

(** Every [Put] of the trace is for the key of a listed link. *)
Definition puts_listed (t : list event) : Prop :=
  ∀ key product, Put key product ∈ t → ∃ url, listed t url ∧ key = dedup_key url.

(** The listing pages that one run of the [while] loop fetches, from
    [page] on and with [seen] the keys seen so far: the run ends with
    the first page that has no link or no new key, or after page
    [max_pages]. *)
Inductive page_run : gset string → nat → list (nat * list string) → Prop :=
| run_over seen page :
    page_run seen page []
| run_break seen page links :
    page ≤ max_pages →
    links = [] ∨ keys_of links ⊆ seen →
    page_run seen page [(page, links)]
| run_next seen page links rest :
    page ≤ max_pages →
    links ≠ [] → ¬ keys_of links ⊆ seen →
    page_run (seen ∪ keys_of links) (page + 1) rest →
    page_run seen page ((page, links) :: rest).
End Notions.

Section StylePages.
Context {W : Type}.
Variable urljoin : string → string → string.
Variable session_get : W → string → W * exn response.

(** The state agrees with its trace. *)
Definition sound (st : @crawl W) : Prop :=
  collected st = catalog_of (trace st) ∧ puts_fresh (trace st).

(** The state in which a turn of the loop ends. *)
Definition after (t : @turn W) : crawl :=
  match t with
  | Break st | NextPage _ st => st
  end.

(** The listing pages fetched for one style, in order. *)
Definition style_pages (cat : category) (st : crawl) (style : string)
    : list (nat * list string) :=
  drop (length (listings (trace st)))
    (listings (trace (process_style urljoin session_get cat st style))).
End StylePages.

(** A listing page of the shop theme: the products are in the
    [data-events] payload of a script, and in cards as well. *)
Definition shopify_listing : soup := {|
  data_event_scripts :=
    [Events (JList
       [JList [JStr "page_viewed"; JDict []];
        JList [JStr "collection_viewed";
               JDict [("collection",
                 JDict [("id", JStr "268501745777");
                        ("productVariants",
                          JList [JDict [("price", JDict [("amount", JNum 312)]);
                                        ("product", JDict [("title", JStr "S8/SB30");
                                                           ("url", JStr "/products/s8-sb30")])];
                                 JDict [("product", JDict [("title", JStr "S8/SB33");
                                                           ("url", JStr " /products/s8-sb33 ")])]])])]]])];
  select := λ sel,
    if String.eqb sel "li.grid__item"
    then [{| anchor_href := Some "/products/s8-sb36" |}] else [];
  product_class_elements := [{| anchor_href := Some "/pages/product-care" |}];
  h1_text := Ret None;
  price_text := Ret None;
  select_one_text := λ _, Ret None;
  meta_description := Ret None;
  og_image := Ret None;
  img_src := Ret None;
|}.

(** The same markup with a payload that does not decode. *)
Definition malformed_listing : soup := {|
  data_event_scripts := [EmptyAttr; Malformed];
  select := select shopify_listing;
  product_class_elements := product_class_elements shopify_listing;
  h1_text := Ret None;
  price_text := Ret None;
  select_one_text := λ _, Ret None;
  meta_description := Ret None;
  og_image := Ret None;
  img_src := Ret None;
|}.

(** A page of an unknown theme: no payload, no card. *)
Definition plain_listing : soup := {|
  data_event_scripts := [];
  select := λ _, [];
  product_class_elements :=
    [{| anchor_href := Some " /products/s8-sb36 " |}; {| anchor_href := None |}];
  h1_text := Ret None;
  price_text := Ret None;
  select_one_text := λ _, Ret None;
  meta_description := Ret None;
  og_image := Ret None;
  img_src := Ret None;
|}.

(** The state in which [process_category] starts, on an empty disk. *)
Definition start {W : Type} (w : W) : @crawl W :=
  {| world := w; files := ∅; collected := ∅; trace := [] |}.

(** The image downloads attempted by the events of [t], oldest first. *)
Fixpoint downloads (t : list event) : list (string * string * bool) :=
  match t with
  | [] => []
  | Download url dest ok :: t' => downloads t' ++ [(url, dest, ok)]
  | _ :: t' => downloads t'
  end.

(** Whether all the links of the listing pages have the key [key]. *)
Definition all_keyed (urljoin : string → string → string) (key : string)
    (pages : list (nat * list string)) : bool :=
  forallb (λ pl, forallb (λ link, String.eqb (dedup_key (absolute urljoin link)) key) pl.2)
    pages.

(** ** Notions used in the further properties *)

(** The characters of [s] that satisfy [P], in order. *)
Fixpoint keep (P : ascii → bool) (s : string) : string :=
  match s with
  | EmptyString => EmptyString
  | String c t => if P c then String c (keep P t) else keep P t
  end.

(** A digit or a dot: what the price pattern leaves. *)
Definition price_char (c : ascii) : bool := Py.is_digit c || Ascii.eqb c ".".

(** A character of [[A-Za-z0-9_.-]]. *)
Definition filename_char (c : ascii) : bool := negb (unsafe_char c).

(** One or more letters or digits. *)
Definition alnum_word (a : string) : Prop :=
  Py.all Py.is_alnum a = true ∧ a ≠ "".

(** A text without surrounding white space. *)
Definition stripped (s : string) : Prop := Py.strip s = s.

(** A request that [get_soup] turns into [None]: it raised, or its
    status is not 200. *)
Definition failed (r : exn response) : Prop :=
  match r with
  | Raise => True
  | Ret resp => status_code resp ≠ 200
  end.

(** The number of product pages of [t] that gave a result. *)
Fixpoint parsed (t : list event) : nat :=
  match t with
  | [] => 0
  | Detail _ true :: t' => S (parsed t')
  | _ :: t' => parsed t'
  end.

(** Every product page of the trace was fetched for a key that the
    catalog did not have. *)
Fixpoint details_fresh (t : list event) : Prop :=
  match t with
  | [] => True
  | Detail url _ :: t' => catalog_of t' !! dedup_key url = None ∧ details_fresh t'
  | _ :: t' => details_fresh t'
  end.

(** A variant of the payload that carries the product URL [url]. *)
Definition variant_has_url (variant : json) (url : string) : Prop :=
  ∃ prod, get_if_dict "product" variant = JDict prod
          ∧ dict_get "url" prod = JStr url ∧ url ≠ "".

(** A variant whose product URL is neither empty nor a text. *)
Definition variant_url_not_text (variant : json) : Prop :=
  ∃ prod url, get_if_dict "product" variant = JDict prod
              ∧ dict_get "url" prod = url ∧ json_truthy url = true
              ∧ ∀ s, url ≠ JStr s.

(** An event of the payload that is not a [collection_viewed] event. *)
Definition other_event (ev : json) : Prop :=
  ∃ name details, ev = JList [JStr name; details] ∧ name ≠ "collection_viewed".

(** ** [login] *)

(** [s.lower()] on code points below 256: the letters [A-Z] and the
    capital letters of Latin-1, which lie 32 below their small forms. *)
Definition lower_char (c : ascii) : ascii :=
  if (Py.between "A" "Z" c
      || (Py.between "192" "222" c && negb (Ascii.eqb c "215")))%bool
  then ascii_of_N (Py.code c + 32) else c.

Definition str_lower (s : string) : string := Py.map lower_char s.

(** [needle in hay] *)
Fixpoint contains (needle hay : string) : bool :=
  String.prefix needle hay
  || match hay with
     | EmptyString => false
     | String _ t => contains needle t
     end.

(** A Python dict from texts to texts, in insertion order. *)
Fixpoint dict_set (key value : string) (d : list (string * string)) : list (string * string) :=
  match d with
  | [] => [(key, value)]
  | (k, v) :: d' =>
      if String.eqb k key then (key, value) :: d' else (k, v) :: dict_set key value d'
  end.

Fixpoint dict_lookup (key : string) (d : list (string * string)) : option string :=
  match d with
  | [] => None
  | (k, v) :: d' => if String.eqb k key then Some v else dict_lookup key d'
  end.

(** An [<input>] of a form: its [name] and [value] attributes. *)
Record input_tag : Type := { input_name : option string; input_value : option string }.

(** A [<form>]: whether it has an input of type [password], its
    [action], its inputs. *)
Record form_tag : Type := {
  has_password_input : bool;
  form_action : option string;
  form_inputs : list input_tag;
}.

(** The response to the request for the login page, with the forms of
    its document. *)
Record login_page : Type := { login_status : nat; forms : list form_tag }.

(** The response to the submission: the status codes of the redirects
    it followed, and its text. *)
Record post_response : Type := { history : list nat; post_text : string }.

(** The key is taken for the field of the e-mail address. *)
Definition email_key (key : string) : bool :=
  let lower := str_lower key in
  contains "email" lower || contains "username" lower || contains "customer[email]" lower.

(** The key is taken for the field of the password. *)
Definition password_key (key : string) : bool :=
  negb (email_key key) && contains "pass" (str_lower key).

Section Login.
Context {W : Type}.
(** The credentials of the configuration. *)
Variable EMAIL PASSWORD : string.
Variable urljoin : string → string → string.
(** [session.get] for the login page and [session.post]. *)
Variable session_get_login : W → string → W * exn login_page.
Variable session_post : W → string → list (string * string) → W * exn post_response.

(** [for inp in form.find_all("input"): ...] *)
Fixpoint collect_inputs (inputs : list input_tag) (payload : list (string * string))
    : list (string * string) :=
  match inputs with
  | [] => payload
  | inp :: rest =>
      match input_name inp with
      | Some (String _ _ as name) =>
          collect_inputs rest (dict_set name (default "" (input_value inp)) payload)
      | _ => collect_inputs rest payload
      end
  end.

(** [for key in list(payload.keys()): ...] *)
Fixpoint fill_credentials (keys : list string) (payload : list (string * string))
    (inserted_email inserted_password : bool) : list (string * string) * bool * bool :=
  match keys with
  | [] => (payload, inserted_email, inserted_password)
  | key :: rest =>
      let lower := str_lower key in
      if (contains "email" lower || contains "username" lower
          || contains "customer[email]" lower)%bool
      then fill_credentials rest (dict_set key EMAIL payload) true inserted_password
      else if contains "pass" lower
      then fill_credentials rest (dict_set key PASSWORD payload) inserted_email true
      else fill_credentials rest payload inserted_email inserted_password
  end.

(** The payload with the credentials put in. *)
Definition with_credentials (payload : list (string * string)) : list (string * string) :=
  let '(payload, inserted_email, inserted_password) :=
    fill_credentials (payload.*1) payload false false in
  let payload := if inserted_email then payload else dict_set "email" EMAIL payload in
  if inserted_password then payload else dict_set "password" PASSWORD payload.

(** Where and what [login] posts for a form. *)
Definition login_request (form : form_tag) : string * list (string * string) :=
  let action :=
    match form_action form with
    | Some (String _ _ as action) => action
    | _ => "/account/login"
    end in
  let login_url := if Py.startswith "http" action then action else urljoin BASE_URL action in
  (login_url, with_credentials (collect_inputs (form_inputs form) [])).

(** The first form with a password input. *)
Fixpoint login_form (forms : list form_tag) : option form_tag :=
  match forms with
  | [] => None
  | frm :: rest => if has_password_input frm then Some frm else login_form rest
  end.

Definition login (w : W) : W * bool :=
  let '(w, r) := session_get_login w (BASE_URL +:+ "/account/login") in
  match r with
  | Raise => (w, false)
  | Ret resp =>
      if http_error (login_status resp) then (w, false)     (* [raise_for_status] *)
      else
        match login_form (forms resp) with
        | None => (w, false)
        | Some form =>
            let '(login_url, payload) := login_request form in
            let '(w, r) := session_post w login_url payload in
            match r with
            | Raise => (w, false)
            | Ret post_resp =>
                if existsb (λ status, (status =? 301)%nat || (status =? 302)%nat)
                     (history post_resp)
                then (w, true)
                else if (contains "logout" (str_lower (post_text post_resp))
                         || contains "my account" (str_lower (post_text post_resp)))%bool
                then (w, true)
                else (w, false)
            end
        end
  end.

End Login.

(** The login form of the shop theme. *)
Definition shop_login_form : form_tag := {|
  has_password_input := true;
  form_action := Some "/account/login";
  form_inputs :=
    [{| input_name := Some "form_type"; input_value := Some "customer_login" |};
     {| input_name := Some "utf8"; input_value := Some "yes" |};
     {| input_name := Some "customer[email]"; input_value := None |};
     {| input_name := Some "customer[password]"; input_value := None |};
     {| input_name := None; input_value := Some "Sign in" |}];
|}.

(** A shop whose login page has only a search form. *)
Definition no_login_site (w : unit) (url : string) : unit * exn login_page :=
  (w, Ret {| login_status := 200;
             forms := [{| has_password_input := false; form_action := Some "/search";
                          form_inputs := [{| input_name := Some "q"; input_value := None |}] |}] |}).

Definition no_post (w : unit) (url : string) (payload : list (string * string))
    : unit * exn post_response :=
  (w, Raise).

(** A payload with a variant whose product URL is a number. *)
Definition numbered_listing : soup := {|
  data_event_scripts :=
    [Events (JList
       [JList [JStr "collection_viewed";
               JDict [("collection",
                 JDict [("productVariants",
                          JList [JDict [("product", JDict [("url", JStr "/products/s8-sb30")])];
                                 JDict [("product", JDict [("url", JNum 42)])]])])]]])];
  select := select shopify_listing;
  product_class_elements := [];
  h1_text := Ret None;
  price_text := Ret None;
  select_one_text := λ _, Ret None;
  meta_description := Ret None;
  og_image := Ret None;
  img_src := Ret None;
|}.

(** ** Notions of the specification *)

(** The characters that a file name may have, [[A-Za-z0-9_.-]], one by
    one. *)
Definition filename_alphabet : string :=
  "ABCDEFGHIJKLMNOPQRSTUVWXYZabcdefghijklmnopqrstuvwxyz0123456789_.-".

Definition in_alphabet (c : ascii) : bool :=
  match String.index 0 (String c "") filename_alphabet with
  | Some _ => true
  | None => false
  end.

(** A character of the alphabet stays, any other becomes [_]. *)
Definition underscored (c : ascii) : ascii := if in_alphabet c then c else "_".

(** A product page whose [og:image] tag has a blank [content], and
    that has an image with a [src]. *)
Definition blank_og_page : soup := {|
  data_event_scripts := [];
  select := λ _, [];
  product_class_elements := [];
  h1_text := Ret (Some "S8/SB30 Sink Base");
  price_text := Ret (Some "$312.00");
  select_one_text := λ _, Ret None;
  meta_description := Ret None;
  og_image := Ret (Some (Some " "));
  img_src := Ret (Some "https://cdn.shopify.com/s/files/S8-SB30.jpg");
|}.

(** A product page on which the query for one description container
    raises. *)
Definition description_raises_page : soup := {|
  data_event_scripts := [];
  select := λ _, [];
  product_class_elements := [];
  h1_text := Ret (Some "S8/SB30 Sink Base");
  price_text := Ret (Some "$312.00");
  select_one_text := λ sel, if String.eqb sel "div#ProductDescription" then Raise else Ret None;
  meta_description := Ret None;
  og_image := Ret (Some (Some "https://cdn.shopify.com/s/files/S8-SB30.jpg"));
  img_src := Ret None;
|}.

(** [s] begins with a part of the form of a product identifier:
    letters or digits, a slash, letters or digits. *)
Definition starts_with_id (s : string) : Prop :=
  ∃ a b rest, s = a +:+ "/" +:+ b +:+ rest ∧ alnum_word a ∧ alnum_word b.

(** [t] does not begin with a character that satisfies [P]. *)
Definition not_continued (P : ascii → bool) (t : string) : Prop :=
  match t with
  | EmptyString => True
  | String c _ => P c = false
  end.

(** No part of the form of an identifier begins in [pre], when [pre]
    is followed by [s]. *)
Definition none_earlier (pre s : string) : Prop :=
  ∀ p1 p2, pre = p1 +:+ p2 → p2 ≠ "" → ¬ starts_with_id (p2 +:+ s).

(** The URL of page [page] of the collection of [style] for a category:
    the collection URL itself for page 1, and else that URL with the
    parameter [page]. *)
Definition listing_url (cat : category) (style : string) (page : nat) : string :=
  let base_collection := BASE_URL +:+ "/collections/" +:+ style +:+ "-" +:+ cat_slug cat in
  if decide (page = 1) then base_collection
  else base_collection +:+ "?page=" +:+ pretty page.

(** A disk on which a folder exists: its entries [.] and [..] do. *)
Definition folder_exists (folder : string) (fs : gset string) : Prop :=
  path_join folder "." ∈ fs ∧ path_join folder ".." ∈ fs.

(** A category folder that exists and is empty. *)
Definition empty_folder : gset string :=
  {[ "output/689cba9eca19d8fef712c080/."; "output/689cba9eca19d8fef712c080/.." ]}.

(** * Properties *)

(** ** Strings *)

#[local] Arguments Ascii.eqb : simpl never.

Lemma sapp_cons c s t : String c s +:+ t = String c (s +:+ t).
Proof. reflexivity. Qed.

Lemma sapp_nil_l s : "" +:+ s = s.
Proof. reflexivity. Qed.

Lemma sapp_nil_r s : s +:+ "" = s.
Proof. induction s as [|c s IH]; [done|]. by rewrite sapp_cons, IH. Qed.

Lemma sapp_assoc s t u : (s +:+ t) +:+ u = s +:+ t +:+ u.
Proof. induction s as [|c s IH]; [done|]. by rewrite !sapp_cons, IH. Qed.

Ltac str_norm := repeat (rewrite ?sapp_assoc, ?sapp_cons, ?sapp_nil_l).

Lemma slength_app s t : String.length (s +:+ t) = String.length s + String.length t.
Proof. induction s as [|c s IH]; [done|]. rewrite sapp_cons. simpl. by rewrite IH. Qed.

Lemma all_app P s t : Py.all P (s +:+ t) = (Py.all P s && Py.all P t)%bool.
Proof.
  induction s as [|c s IH]; [done|].
  rewrite sapp_cons. simpl. rewrite IH. by destruct (P c).
Qed.

Lemma mem_app a s t : Py.mem a (s +:+ t) = (Py.mem a s || Py.mem a t)%bool.
Proof.
  induction s as [|c s IH]; [done|].
  rewrite sapp_cons. simpl. rewrite IH. by destruct (Ascii.eqb c a).
Qed.

(** A text whose characters all satisfy [P] does not contain a
    character that does not. *)
Lemma all_not_mem P a s : P a = false → Py.all P s = true → Py.mem a s = false.
Proof.
  intros Ha. induction s as [|c s IH]; [done|]. simpl.
  intros [Hc Hs]%andb_true_iff. rewrite (IH Hs), orb_false_r.
  apply Ascii.eqb_neq. congruence.
Qed.

Lemma split_head_no_sep a s : Py.mem a s = false → Py.split_head a s = s.
Proof.
  induction s as [|c s IH]; [done|]. simpl.
  intros [Hc Hs]%orb_false_iff. rewrite Hc. by rewrite IH.
Qed.

Lemma split_head_app a b q :
  Py.mem a b = false → Py.split_head a (b +:+ String a q) = b.
Proof.
  induction b as [|c b IH]; simpl.
  - intros _. by rewrite Ascii.eqb_refl.
  - intros [Hc Hb]%orb_false_iff. rewrite Hc. by rewrite IH.
Qed.

Lemma partition_no_sep a s : Py.mem a s = false → Py.partition a s = (s, false, "").
Proof.
  induction s as [|c s IH]; [done|]. simpl.
  intros [Hc Hs]%orb_false_iff. rewrite Hc. by rewrite IH.
Qed.

Lemma partition_app a b q :
  Py.mem a b = false → Py.partition a (b +:+ String a q) = (b, true, q).
Proof.
  induction b as [|c b IH]; simpl.
  - intros _. by rewrite Ascii.eqb_refl.
  - intros [Hc Hb]%orb_false_iff. rewrite Hc. by rewrite IH.
Qed.

Lemma basename_no_slash s : Py.mem "/" s = false → Py.basename s = s.
Proof.
  destruct s as [|c s]; [done|]. simpl.
  intros [Hc Hs]%orb_false_iff. by rewrite Hs, Hc.
Qed.

Lemma basename_app d f :
  Py.mem "/" f = false → Py.basename (d +:+ String "/" f) = f.
Proof.
  intros Hf. induction d as [|c d IH]; simpl.
  - by rewrite Hf.
  - rewrite mem_app. simpl. by rewrite orb_true_r.
Qed.

Lemma basename_mem s : Py.mem "/" (Py.basename s) = false.
Proof.
  induction s as [|c s IH]; [done|]. simpl.
  destruct (Py.mem "/" s) eqn:Hs; [done|].
  destruct (Ascii.eqb c "/") eqn:Hc; [done|]. simpl. by rewrite Hc, Hs.
Qed.

Lemma map_all P f s : (∀ c, P (f c) = true) → Py.all P (Py.map f s) = true.
Proof. intros Hf. induction s as [|c s IH]; [done|]. simpl. by rewrite Hf, IH. Qed.

Lemma map_id_on P f s :
  (∀ c, P c = true → f c = c) → Py.all P s = true → Py.map f s = s.
Proof.
  intros Hf. induction s as [|c s IH]; [done|]. simpl.
  intros [Hc Hs]%andb_true_iff. by rewrite (Hf _ Hc), (IH Hs).
Qed.

Lemma map_length f s : String.length (Py.map f s) = String.length s.
Proof. induction s as [|c s IH]; [done|]. simpl. by rewrite IH. Qed.

(** ** The matcher *)

Lemma span_app P s : (span P s).1 +:+ (span P s).2 = s.
Proof.
  induction s as [|c s IH]; [done|]. simpl.
  destruct (P c); [|done]. destruct (span P s) as [a b]. simpl in *.
  by rewrite sapp_cons, IH.
Qed.

Lemma span_all P s : Py.all P (span P s).1 = true.
Proof.
  induction s as [|c s IH]; [done|]. simpl.
  destruct (P c) eqn:Hc; [|done]. destruct (span P s) as [a b]. simpl in *.
  by rewrite Hc, IH.
Qed.

(** What follows the longest run does not start with a [P]. *)
Definition stops (P : ascii → bool) (t : string) : Prop :=
  match t with
  | EmptyString => True
  | String c _ => P c = false
  end.

Lemma span_stops P s : stops P (span P s).2.
Proof.
  induction s as [|c s IH]; [done|]. simpl.
  destruct (P c) eqn:Hc; [|done]. by destruct (span P s) as [a b].
Qed.

Lemma span_run P s t : Py.all P s = true → stops P t → span P (s +:+ t) = (s, t).
Proof.
  intros Hs Ht. induction s as [|c s IH]; simpl in *.
  - destruct t as [|c t]; [done|]. simpl in *. by rewrite Ht.
  - apply andb_true_iff in Hs as [Hc Hs]. by rewrite Hc, (IH Hs).
Qed.

(** When the rest of the pattern cannot start with a [P], only the
    longest run can match. *)
Lemma rep_maximal P lo hi s k :
  (∀ c t, P c = true → k (String c t) = None) →
  Re.rep P lo hi s k =
    if within lo hi (String.length (span P s).1) then k (span P s).2 else None.
Proof.
  intros Hk. revert lo hi. induction s as [|c s IH]; intros lo hi; simpl.
  - unfold within. destruct lo, hi; simpl; done.
  - destruct (P c) eqn:Hc; simpl.
    + destruct (span P s) as [a b] eqn:Hab. simpl in *.
      destruct hi as [[|h]|]; simpl.
      * rewrite (Hk _ _ Hc). unfold within. simpl.
        rewrite andb_false_r. by destruct lo.
      * rewrite IH. unfold within. destruct lo as [|lo]; simpl.
        -- rewrite (Hk _ _ Hc). destruct (String.length a <=? h)%nat; [|done].
           by destruct (k b).
        -- destruct ((lo <=? String.length a)%nat && (String.length a <=? h)%nat)%bool;
             [|done]. by destruct (k b).
      * rewrite IH. unfold within. destruct lo as [|lo]; simpl.
        -- rewrite (Hk _ _ Hc). by destruct (k b).
        -- rewrite !andb_true_r. destruct (lo <=? String.length a)%nat; [|done].
           by destruct (k b).
    + unfold within. destruct lo, hi; simpl; done.
Qed.

Lemma match_at_cls P c t :
  Re.match_at (Re.Cls P) (String c t) = if P c then Some 1 else None.
Proof.
  unfold Re.match_at. simpl. destruct (P c); [|done]. simpl. f_equal. lia.
Qed.

(** Substituting one character for a class is a character map. *)
Lemma sub_cls P r s :
  Re.sub (Re.Cls P) (String r "") s = Py.map (λ c, if P c then r else c) s.
Proof.
  unfold Re.sub. induction s as [|c s IH]; [done|].
  cbn [Re.sub_go Py.map]. rewrite match_at_cls. destruct (P c); by rewrite IH.
Qed.

(** Characters still to be dropped are dropped. *)
Lemma sub_go_skip r repl a b :
  Re.sub_go r repl (String.length a) (a +:+ b) = Re.sub_go r repl 0 b.
Proof. induction a as [|c a IH]; [done|]. simpl. by rewrite IH. Qed.

(** Where the pattern matches nowhere, the text is unchanged. *)
Lemma sub_go_no_match r repl s :
  (∀ p m, s = p +:+ m → Re.match_at r m = None) → Re.sub_go r repl 0 s = s.
Proof.
  induction s as [|c s IH]; [done|]. intros Hno. cbn [Re.sub_go].
  rewrite (Hno "" (String c s) eq_refl). f_equal. apply IH.
  intros p m ->. apply (Hno (String c p)). done.
Qed.

(** ** ImageResolver *)

Lemma sanitize_filename_unfold x :
  sanitize_filename x = Py.map safe_char (Py.basename (Py.split_head "?" x)).
Proof. unfold sanitize_filename. by rewrite sub_cls. Qed.

Lemma safe_char_safe c : unsafe_char (safe_char c) = false.
Proof. unfold safe_char. by destruct (unsafe_char c) eqn:Hc. Qed.

Lemma safe_char_id c : unsafe_char c = false → safe_char c = c.
Proof. unfold safe_char. by intros ->. Qed.

Lemma sanitize_filename_safe x :
  Py.all (λ c, negb (unsafe_char c)) (sanitize_filename x) = true.
Proof.
  rewrite sanitize_filename_unfold. apply map_all.
  intros c. by rewrite safe_char_safe.
Qed.

(** The alphabet of the specification is the complement of the class
    that the code replaces. *)
Lemma in_alphabet_spec c : in_alphabet c = negb (unsafe_char c).
Proof. destruct c as [[] [] [] [] [] [] [] []]; vm_compute; reflexivity. Qed.

Lemma underscored_spec c : underscored c = safe_char c.
Proof. unfold underscored, safe_char. rewrite in_alphabet_spec. by destruct (unsafe_char c). Qed.

Lemma map_ext f g s : (∀ c, f c = g c) → Py.map f s = Py.map g s.
Proof. intros Hfg. induction s as [|c s IH]; [done|]. simpl. by rewrite Hfg, IH. Qed.

Lemma all_ext P Q s : (∀ c, P c = Q c) → Py.all P s = Py.all Q s.
Proof. intros HPQ. induction s as [|c s IH]; [done|]. simpl. by rewrite HPQ, IH. Qed.

(** C6. [sanitize_filename] is idempotent; it drops the query (what
    follows the first [?]), keeps only the last path component, and
    puts [_] for every character outside [[A-Za-z0-9_.-]], so that its
    result has no other character.  The alphabet is the one of the
    specification, written out character by character. *)
Theorem sanitize_filename_idempotent :
  (∀ x, sanitize_filename (sanitize_filename x) = sanitize_filename x)
  ∧ (∀ x, Py.all in_alphabet (sanitize_filename x) = true)
  ∧ (∀ x, sanitize_filename x = Py.map underscored (Py.basename (Py.split_head "?" x)))
  ∧ (∀ dir file query,
       Py.mem "?" dir = false → Py.mem "?" file = false → Py.mem "/" file = false →
       sanitize_filename (dir +:+ "/" +:+ file +:+ "?" +:+ query) = Py.map underscored file
       ∧ sanitize_filename (dir +:+ "/" +:+ file) = Py.map underscored file
       ∧ sanitize_filename (file +:+ "?" +:+ query) = Py.map underscored file
       ∧ sanitize_filename file = Py.map underscored file)
  ∧ (∀ file, Py.all in_alphabet file = true → sanitize_filename file = file)
  ∧ (∀ c, in_alphabet c = false → c ≠ "/"%char → c ≠ "?"%char →
       sanitize_filename (String c "") = "_").
Proof.
  assert (∀ s, Py.map underscored s = Py.map safe_char s) as Hmap.
  { intros s. apply map_ext, underscored_spec. }
  assert (∀ s, Py.all in_alphabet s = Py.all (λ c, negb (unsafe_char c)) s) as Hall.
  { intros s. apply all_ext, in_alphabet_spec. }
  split_and!.
  - intros x. pose proof (sanitize_filename_safe x) as Hsafe.
    rewrite (sanitize_filename_unfold (sanitize_filename x)).
    rewrite split_head_no_sep, basename_no_slash.
    + apply (map_id_on (λ c, negb (unsafe_char c))); [|done].
      intros c Hc. apply safe_char_id. by destruct (unsafe_char c).
    + by apply (all_not_mem (λ c, negb (unsafe_char c))).
    + by apply (all_not_mem (λ c, negb (unsafe_char c))).
  - intros x. rewrite Hall. apply sanitize_filename_safe.
  - intros x. rewrite Hmap. apply sanitize_filename_unfold.
  - intros dir file query Hd Hf Hs. rewrite !sanitize_filename_unfold, Hmap.
    assert (Py.mem "?" (dir +:+ String "/" file) = false) as Hdf.
    { rewrite mem_app. simpl. by rewrite Hd, Hf. }
    replace (dir +:+ "/" +:+ file +:+ "?" +:+ query)
      with ((dir +:+ String "/" file) +:+ String "?" query) by (by str_norm).
    replace (dir +:+ "/" +:+ file) with (dir +:+ String "/" file) by (by str_norm).
    replace (file +:+ "?" +:+ query) with (file +:+ String "?" query) by (by str_norm).
    rewrite !split_head_app, !split_head_no_sep by done.
    by rewrite (basename_app dir file), basename_no_slash.
  - intros file Hfile. rewrite sanitize_filename_unfold, <- Hmap.
    rewrite split_head_no_sep, basename_no_slash
      by (by apply (all_not_mem in_alphabet)).
    apply (map_id_on in_alphabet); [|done].
    intros c Hc. unfold underscored. by rewrite Hc.
  - intros c Hc Hslash Hquery. rewrite sanitize_filename_unfold, <- Hmap.
    apply Ascii.eqb_neq in Hslash, Hquery. simpl. rewrite Hquery. simpl. rewrite Hslash.
    simpl. unfold underscored. by rewrite Hc.
Qed.

Lemma within_spec lo hi n :
  within lo hi n = true ↔ lo ≤ n ∧ match hi with Some h => n ≤ h | None => True end.
Proof.
  unfold within. rewrite andb_true_iff, Nat.leb_le.
  destruct hi as [h|]; [rewrite Nat.leb_le|]; intuition.
Qed.

Lemma digit_not c a : Py.is_digit a = false → Py.is_digit c = true → Ascii.eqb a c = false.
Proof. intros Ha Hc. apply Ascii.eqb_neq. congruence. Qed.

Lemma alpha_not c a : Py.is_alpha a = false → Py.is_alpha c = true → Ascii.eqb a c = false.
Proof. intros Ha Hc. apply Ascii.eqb_neq. congruence. Qed.

Lemma at_eol_alpha c t : Py.is_alpha c = true → Re.at_eol (String c t) = false.
Proof.
  intros Hc. simpl. destruct t; [|done]. apply Ascii.eqb_neq. intros ->. done.
Qed.

Lemma at_eol_inv t : Re.at_eol t = true → t = "" ∨ t = String Py.LF "".
Proof.
  destruct t as [|c [|c' t]]; simpl; [by left| |done].
  intros ->%Ascii.eqb_eq. by right.
Qed.

(** The text after a marker: [.], letters, and the end. *)
Lemma extension_ahead e tail :
  extension e → tail = "" ∨ tail = String Py.LF "" →
  Re.exec (Re.chr "." ⋅ Re.plus Py.is_alpha ⋅ Re.Eol)%re (String "." (e +:+ tail)) Some
  = Some tail.
Proof.
  intros [He Hlen] Htail. simpl.
  rewrite rep_maximal by (intros c t Hc; by rewrite at_eol_alpha).
  rewrite span_run; [|done|by destruct Htail as [-> | ->]]. simpl.
  replace (within 1 None (String.length e)) with true
    by (symmetry; by apply within_spec).
  by destruct Htail as [-> | ->].
Qed.

Lemma extension_ahead_inv s rest :
  Re.exec (Re.chr "." ⋅ Re.plus Py.is_alpha ⋅ Re.Eol)%re s Some = Some rest →
  ∃ e, s = String "." (e +:+ rest) ∧ extension e ∧ (rest = "" ∨ rest = String Py.LF "").
Proof.
  destruct s as [|c t]; [done|]. simpl.
  destruct (Ascii.eqb_spec "." c) as [<-|]; [|done].
  rewrite rep_maximal by (intros c t' Hc; by rewrite at_eol_alpha).
  destruct (within _ _ _) eqn:Hw; [|done]. apply within_spec in Hw as [Hw _].
  pose proof (span_app Py.is_alpha t) as Happ. pose proof (span_all Py.is_alpha t) as Hall.
  destruct (span Py.is_alpha t) as [e t']. simpl in *.
  destruct (Re.at_eol t') eqn:Heol; [|done]. intros [= <-].
  exists e. rewrite Happ. split_and!; [done|by split|by apply at_eol_inv].
Qed.

(** A marker matches where it stands before the extension. *)
Lemma marker_match w h e tail :
  dimension w → dimension h → extension e → tail = "" ∨ tail = String Py.LF "" →
  Re.exec resolution_suffix (String "_" (w +:+ String "x" (h +:+ String "." (e +:+ tail)))) Some
  = Some (String "." (e +:+ tail)).
Proof.
  intros [Hw Hwl] [Hh Hhl] He Htail. unfold resolution_suffix. simpl.
  rewrite rep_maximal; last first.
  { intros c t Hc. simpl. by rewrite (digit_not c "x"). }
  rewrite span_run by done. simpl.
  replace (within 2 (Some 5) (String.length w)) with true
    by (symmetry; by apply within_spec).
  rewrite rep_maximal; last first.
  { intros c t Hc. simpl. by rewrite (digit_not c "."). }
  rewrite span_run by done. simpl.
  replace (within 2 (Some 5) (String.length h)) with true
    by (symmetry; by apply within_spec).
  pose proof (extension_ahead e tail He Htail) as Hahead. simpl in Hahead.
  by rewrite Hahead.
Qed.

(** And only there. *)
Lemma marker_match_inv s rest :
  Re.exec resolution_suffix s Some = Some rest →
  ∃ w h e tail,
    s = String "_" (w +:+ String "x" (h +:+ String "." (e +:+ tail)))
    ∧ rest = String "." (e +:+ tail)
    ∧ dimension w ∧ dimension h ∧ extension e
    ∧ (tail = "" ∨ tail = String Py.LF "").
Proof.
  unfold resolution_suffix. destruct s as [|c t]; [done|]. simpl.
  destruct (Ascii.eqb_spec "_" c) as [<-|]; [|done].
  rewrite rep_maximal; last first.
  { intros c t' Hc. simpl. by rewrite (digit_not c "x"). }
  destruct (within _ _ _) eqn:Hw; [|done]. apply within_spec in Hw.
  pose proof (span_app Py.is_digit t) as Happ. pose proof (span_all Py.is_digit t) as Hall.
  destruct (span Py.is_digit t) as [w t1]. simpl in *.
  destruct t1 as [|c1 t2]; [done|].
  destruct (Ascii.eqb_spec "x" c1) as [<-|]; [|done].
  rewrite rep_maximal; last first.
  { intros c t' Hc. simpl. by rewrite (digit_not c "."). }
  destruct (within _ _ _) eqn:Hh; [|done]. apply within_spec in Hh.
  pose proof (span_app Py.is_digit t2) as Happ2. pose proof (span_all Py.is_digit t2) as Hall2.
  destruct (span Py.is_digit t2) as [h t3]. simpl in *.
  destruct (Re.exec (Re.chr "." ⋅ Re.plus Py.is_alpha ⋅ Re.Eol)%re t3 Some) as [tail|] eqn:Hahead.
  - apply extension_ahead_inv in Hahead as (e & -> & He & Htail).
    simpl in *. destruct (Ascii.eqb_spec "." ".") as [_|]; [|done].
    intros Hrest. exists w, h, e, tail. subst t t2. split_and!; try done.
    revert Hrest. destruct (Re.rep _ _ _ _ _); [|done]. by intros [= <-].
  - simpl in Hahead. destruct t3 as [|c3 t4]; [done|].
    destruct (Ascii.eqb "." c3); [|done]. by rewrite Hahead.
Qed.

Lemma match_at_None r s : Re.match_at r s = None ↔ Re.exec r s Some = None.
Proof. unfold Re.match_at. by destruct (Re.exec r s Some). Qed.

(** A matched marker has its only [_] in front. *)
Lemma marker_match_underscore c t :
  is_Some (Re.exec resolution_suffix (String c t) Some) → Py.mem "_" t = false.
Proof.
  intros [rest (w & h & e & tail & [= -> ->] & _ & [Hw _] & [Hh _] & [He _] & Htail)
            %marker_match_inv].
  rewrite mem_app. cbn [Py.mem]. rewrite mem_app. cbn [Py.mem]. rewrite mem_app.
  rewrite (all_not_mem Py.is_digit "_" w), (all_not_mem Py.is_digit "_" h),
    (all_not_mem Py.is_alpha "_" e) by done.
  by destruct Htail as [-> | ->].
Qed.

Lemma sub_marker_none s :
  Py.mem "_" s = false → Re.sub_go resolution_suffix "" 0 s = s.
Proof.
  intros Hs. apply sub_go_no_match. intros p [|c m] ->; [done|].
  apply match_at_None. unfold resolution_suffix. cbn [Re.exec Re.chr].
  rewrite mem_app in Hs. apply orb_false_iff in Hs as [_ Hs]. cbn [Py.mem] in Hs.
  apply orb_false_iff in Hs as [Hc _]. rewrite Ascii.eqb_sym in Hc. by rewrite Hc.
Qed.

(** Substitution removes the marker that stands before the extension,
    and nothing else. *)
Lemma sub_marker p w h e :
  dimension w → dimension h → extension e →
  Re.sub resolution_suffix ""
    (p +:+ String "_" (w +:+ String "x" (h +:+ String "." e)))
  = p +:+ String "." e.
Proof.
  intros Hw Hh He. unfold Re.sub.
  pose proof (marker_match w h e "" Hw Hh He (or_introl eq_refl)) as Hm.
  rewrite sapp_nil_r in Hm.
  induction p as [|c p IH].
  - rewrite !sapp_nil_l. cbn [Re.sub_go]. unfold Re.match_at. rewrite Hm.
    cbn [fmap option_fmap option_map String.length].
    rewrite !slength_app. cbn [String.length]. rewrite slength_app. cbn [String.length].
    replace (S (String.length w + S (String.length h + S (String.length e)))
             - S (String.length e))
      with (S (String.length (w +:+ String "x" h))).
    2:{ rewrite slength_app. cbn [String.length]. lia. }
    rewrite sapp_nil_l.
    replace (w +:+ String "x" (h +:+ String "." e))
      with ((w +:+ String "x" h) +:+ String "." e) by (by str_norm).
    rewrite sub_go_skip. apply sub_marker_none. cbn [Py.mem].
    destruct He as [He _]. by rewrite (all_not_mem Py.is_alpha "_" e).
  - rewrite sapp_cons. cbn [Re.sub_go].
    destruct (Re.match_at _ _) as [n|] eqn:Hn.
    + assert (is_Some (Re.exec resolution_suffix
        (String c (p +:+ String "_" (w +:+ String "x" (h +:+ String "." e)))) Some)) as Hex.
      { unfold Re.match_at in Hn.
        destruct (Re.exec resolution_suffix (String c _) Some); [by eexists|done]. }
      apply marker_match_underscore in Hex. rewrite mem_app in Hex. cbn [Py.mem] in Hex.
      rewrite Ascii.eqb_refl, orb_true_r in Hex. done.
    + by rewrite IH.
Qed.

(** A text that does not end in a marker is left as it is. *)
Lemma sub_marker_id base :
  Py.mem Py.LF base = false → ¬ ends_in_marker base →
  Re.sub resolution_suffix "" base = base.
Proof.
  intros HLF Hno. apply sub_go_no_match. intros p m ->.
  apply match_at_None. destruct (Re.exec _ _ _) as [rest|] eqn:Hex; [|done].
  apply marker_match_inv in Hex as (w & h & e & tail & -> & _ & Hw & Hh & He & Htail).
  destruct Htail as [-> | ->].
  - destruct Hno. exists p, w, h, e. rewrite sapp_nil_r. split_and!; try done.
  - rewrite mem_app in HLF. cbn [Py.mem] in HLF. rewrite mem_app in HLF. cbn [Py.mem] in HLF.
    rewrite mem_app in HLF. cbn [Py.mem] in HLF. rewrite mem_app in HLF. cbn [Py.mem] in HLF.
    rewrite Ascii.eqb_refl in HLF. rewrite !orb_true_r in HLF. done.
Qed.

Lemma marker_no_question w h e :
  dimension w → dimension h → extension e →
  Py.mem "?" (String "_" (w +:+ String "x" (h +:+ String "." e))) = false.
Proof.
  intros [Hw _] [Hh _] [He _]. cbn [Py.mem]. rewrite mem_app. cbn [Py.mem].
  rewrite mem_app. cbn [Py.mem].
  by rewrite (all_not_mem Py.is_digit "?" w), (all_not_mem Py.is_digit "?" h),
    (all_not_mem Py.is_alpha "?" e).
Qed.

(** C5, as the code has it.  Where the text of a URL up to its first
    [?] ends in a marker [_WxH], each of [W] and [H] 2 to 5 digits, a dot
    and an extension of one or more letters [[A-Za-z]],
    [strip_resolution_suffix] removes exactly the marker and keeps the
    query; every other URL, whatever markers it has elsewhere, is
    returned as it is. *)
Theorem strip_resolution_suffix_spec :
  (∀ p w h e q,
     Py.mem "?" p = false → dimension w → dimension h → extension e →
     q = "" ∨ (∃ q', q = String "?" q') →
     strip_resolution_suffix (p +:+ "_" +:+ w +:+ "x" +:+ h +:+ "." +:+ e +:+ q)
     = p +:+ "." +:+ e +:+ q)
  ∧ (∀ base q,
       Py.mem "?" base = false → q = "" ∨ (∃ q', q = String "?" q') →
       Py.mem Py.LF base = false → ¬ ends_in_marker base →
       strip_resolution_suffix (base +:+ q) = base +:+ q).
Proof.
  split.
  - intros p w h e q Hp Hw Hh He Hq.
    set (base := p +:+ String "_" (w +:+ String "x" (h +:+ String "." e))).
    assert (Py.mem "?" base = false) as Hbase.
    { unfold base. rewrite mem_app, Hp. by apply marker_no_question. }
    replace (p +:+ "_" +:+ w +:+ "x" +:+ h +:+ "." +:+ e +:+ q) with (base +:+ q)
      by (unfold base; by str_norm).
    unfold strip_resolution_suffix.
    destruct Hq as [-> | [q' ->]].
    + rewrite sapp_nil_r, partition_no_sep by done.
      unfold base. rewrite sub_marker by done. by str_norm.
    + rewrite partition_app by done.
      unfold base. rewrite sub_marker by done. by str_norm.
  - intros base q Hbase Hq HLF Hno. unfold strip_resolution_suffix.
    destruct Hq as [-> | [q' ->]].
    + rewrite sapp_nil_r, partition_no_sep by done.
      by rewrite sub_marker_id, sapp_nil_r.
    + rewrite partition_app by done. by rewrite sub_marker_id.
Qed.

(** C5, as stated, fails: the path of each of these URLs ends in a
    marker right before the file extension, and the URL is returned as
    it is.  The extension [mp4] has a digit; the fragment [#zoom] is
    part of the text that the pattern must match to its end. *)
Lemma marker_kept_before_mp4_and_fragment :
  dimension "100" ∧ dimension "352" ∧ dimension "192"
  ∧ strip_resolution_suffix
      ("https://cdn.shopify.com/s/files/a" +:+ "_" +:+ "100" +:+ "x" +:+ "100" +:+ "." +:+ "mp4")
    = "https://cdn.shopify.com/s/files/a_100x100.mp4"
  ∧ strip_resolution_suffix
      ("https://cdn.shopify.com/s/files/S8-SB30" +:+ "_" +:+ "352" +:+ "x" +:+ "192"
       +:+ "." +:+ "jpg" +:+ "#zoom")
    = "https://cdn.shopify.com/s/files/S8-SB30_352x192.jpg#zoom".
Proof.
  split_and!; [split; [reflexivity|simpl; lia]..| |]; vm_compute; reflexivity.
Qed.

(** ** The deduplication key *)

Lemma span_whole P s : Py.all P s = true → span P s = (s, "").
Proof. intros Hs. rewrite <- (sapp_nil_r s) at 1. by apply span_run. Qed.

Lemma no_LF_any s : Py.mem Py.LF s = false → Py.all Re.any s = true.
Proof.
  induction s as [|c s IH]; [done|]. cbn [Py.mem Py.all].
  intros [Hc Hs]%orb_false_iff. unfold Re.any at 1. by rewrite Hc, IH.
Qed.

(** On a text without line feed the pattern matches at a delimiter, up
    to the end, and nowhere else. *)
Lemma key_match c t :
  Py.mem Py.LF t = false →
  Re.match_at key_pattern (String c t) =
    if key_delimiter c then Some (S (String.length t)) else None.
Proof.
  intros Ht. unfold Re.match_at, key_pattern. cbn [Re.exec Re.star].
  change (Ascii.eqb c "/" || Ascii.eqb c "?" || Ascii.eqb c "#") with (key_delimiter c).
  destruct (key_delimiter c); [|done].
  rewrite rep_maximal; last first.
  { intros a s Ha. cbn [Re.exec]. destruct s; simpl; [|done].
    unfold Re.any in Ha. by destruct (Ascii.eqb a Py.LF). }
  by rewrite span_whole by (by apply no_LF_any).
Qed.

Lemma dedup_key_prefix u :
  Py.mem Py.LF u = false → dedup_key u = prefix_before key_delimiter u.
Proof.
  unfold dedup_key, Re.sub. induction u as [|c u IH]; [done|].
  cbn [Py.mem]. intros [_ Hu]%orb_false_iff.
  cbn [Re.sub_go prefix_before]. rewrite key_match by done.
  destruct (key_delimiter c).
  - rewrite <- (sapp_nil_r u) at 2. by rewrite sub_go_skip.
  - by rewrite IH.
Qed.

Lemma dedup_key_http r :
  Py.mem Py.LF r = false → dedup_key ("http://" +:+ r) = "http:".
Proof.
  intros Hr. rewrite dedup_key_prefix; [done|]. by rewrite mem_app, Hr.
Qed.

Lemma dedup_key_https r :
  Py.mem Py.LF r = false → dedup_key ("https://" +:+ r) = "https:".
Proof.
  intros Hr. rewrite dedup_key_prefix; [done|]. by rewrite mem_app, Hr.
Qed.

(** C1. The deduplication key is not the URL's scheme, host and path:
    for a product link with a query and a fragment the code computes
    the scheme and the colon, where the claim has the URL up to the
    query. *)
Theorem dedup_key_drops_host_and_path (urljoin : string → string → string) :
  let link := "https://www.jkcabinetry.com/products/s8-sb30?variant=2#specs" in
  absolute urljoin link = link
  ∧ dedup_key (absolute urljoin link) = "https:"
  ∧ scheme_host_path (absolute urljoin link) = "https://www.jkcabinetry.com/products/s8-sb30".
Proof. done. Qed.

(** ** ProductLinkExtractor *)

Lemma select_cards_none pg sels :
  Forall (λ sel, select pg sel = []) sels → select_cards pg sels [] = [].
Proof. induction 1 as [|sel sels Hsel _ IH]; [done|]. simpl. by rewrite Hsel. Qed.

(** The first selector that matches anything supplies the cards. *)
Lemma select_cards_first pg pre sel post :
  Forall (λ s, select pg s = []) pre → select pg sel ≠ [] →
  select_cards pg (pre ++ sel :: post) [] = select pg sel.
Proof.
  intros Hpre Hsel. induction Hpre as [|s pre Hs _ IH]; simpl.
  - by destruct (select pg sel).
  - by rewrite Hs.
Qed.

(** Every card gives the stripped [href] of its first anchor, unless
    there is none or it is empty. *)
Lemma card_urls_spec cards acc :
  card_urls cards acc
  = acc ++ omap (λ card, match parse_product_card card with
                         | Some (String _ _ as url) => Some url
                         | _ => None
                         end) cards.
Proof.
  revert acc. induction cards as [|card cards IH]; intros acc; simpl.
  - by rewrite app_nil_r.
  - destruct (parse_product_card card) as [[|c url]|]; rewrite IH; [done| |done].
    by rewrite <- app_assoc.
Qed.

Lemma generic_urls_spec elems acc :
  generic_urls elems acc
  = acc ++ omap (λ elem, match anchor_href elem with
                         | Some (String _ _ as href) => Some (Py.strip href)
                         | _ => None
                         end) elems.
Proof.
  revert acc. induction elems as [|elem elems IH]; intros acc; simpl.
  - by rewrite app_nil_r.
  - destruct (anchor_href elem) as [[|c href]|]; rewrite IH; [done| |done].
    by rewrite <- app_assoc.
Qed.

(** Scripts with an empty attribute are passed over; a malformed
    payload met before any URL was found ends the strategy. *)
Lemma scripts_loop_malformed pre rest :
  Forall (λ s, s = EmptyAttr) pre → scripts_loop (pre ++ Malformed :: rest) [] = Raise.
Proof. induction 1 as [|s pre -> _ IH]; [done|]. by simpl. Qed.

(** C7. The strategies of the link extractor are tried in order: the
    structured data, when it yields a URL, is the whole result, whatever
    the markup; when it yields none (no payload, or a malformed one, on
    which the loop raises), the cards of the first selector that
    matches supply the links; only when no selector matches, the
    elements with a [product] class do.  A failure of the first
    strategy never escapes: the extractor returns a list for every
    document, and for no document at all. *)
Theorem extraction_strategy_order (pg : soup) :
  (structured_data_urls pg ≠ [] →
     collection_links (Some pg) = structured_data_urls pg
     ∧ ∀ pg', data_event_scripts pg' = data_event_scripts pg →
              collection_links (Some pg') = collection_links (Some pg))
  ∧ (structured_data_urls pg = [] →
       ∀ pre sel post,
         selectors = pre ++ sel :: post →
         Forall (λ s, select pg s = []) pre → select pg sel ≠ [] →
         collection_links (Some pg) = card_urls (select pg sel) [])
  ∧ (structured_data_urls pg = [] →
       Forall (λ s, select pg s = []) selectors →
       collection_links (Some pg) = generic_urls (product_class_elements pg) [])
  ∧ (data_event_scripts pg = [] → structured_data_urls pg = [])
  ∧ (scripts_loop (data_event_scripts pg) [] = Raise →
       structured_data_urls pg = []
       ∧ collection_links (Some pg) = collection_links (Some (without_scripts pg)))
  ∧ collection_links None = [].
Proof.
  split_and!.
  - intros Hurls. split.
    + unfold collection_links. by destruct (structured_data_urls pg).
    + intros pg' Hscripts. unfold collection_links, structured_data_urls in *.
      rewrite Hscripts. by destruct (scripts_loop _ _) as [[|]|].
  - intros Hnone pre sel post Hsels Hpre Hsel. unfold collection_links.
    rewrite Hnone, Hsels, select_cards_first by done.
    by destruct (select pg sel).
  - intros Hnone Hsels. unfold collection_links.
    by rewrite Hnone, select_cards_none.
  - unfold structured_data_urls. by intros ->.
  - intros Hraise. unfold collection_links, structured_data_urls. by rewrite Hraise.
  - done.
Qed.

(** ** ProductPageParser *)

Lemma extract_price_ret pg price_elem :
  price_text pg = Ret price_elem → extract_price pg = Ret (price_of price_elem).
Proof.
  intros H. unfold extract_price. rewrite H. simpl.
  destruct price_elem as [txt|]; [|done]. simpl.
  destruct (Py.truthy _); [|done]. by destruct (float_of _).
Qed.

Lemma description_loop_ret pg descs sels :
  (∀ sel, select_one_text pg sel = Ret (descs sel)) →
  description_loop pg sels = Ret (first_description descs sels).
Proof.
  intros H. induction sels as [|sel sels IH]; [done|]. simpl. rewrite H. simpl.
  by destruct (descs sel).
Qed.

Lemma extract_description_ret pg descs meta :
  (∀ sel, select_one_text pg sel = Ret (descs sel)) →
  meta_description pg = Ret meta →
  extract_description pg = Ret (description_of descs meta).
Proof.
  intros Hsel Hmeta. unfold extract_description, description_of.
  rewrite (description_loop_ret pg descs) by done. simpl.
  destruct (Py.truthy _); [done|]. rewrite Hmeta. simpl. by destruct meta.
Qed.

Lemma extract_image_url_ret pg og img :
  og_image pg = Ret og → img_src pg = Ret img →
  extract_image_url pg = Ret (image_reference og img).
Proof.
  intros Hog Himg. unfold extract_image_url, image_reference. rewrite Hog. simpl.
  destruct og as [[[|c content]|]|]; rewrite ?Himg; simpl; try done; by destruct img.
Qed.

(** What the parser returns when no query raises. *)
Lemma product_of_page_ret pg title price_elem descs meta og img :
  h1_text pg = Ret title → price_text pg = Ret price_elem →
  (∀ sel, select_one_text pg sel = Ret (descs sel)) →
  meta_description pg = Ret meta → og_image pg = Ret og → img_src pg = Ret img →
  product_of_page (Some pg) =
    if Py.truthy (image_reference og img) then
      let high_res_url := strip_resolution_suffix (image_reference og img) in
      Some (Product.make
              (default (default "" title)
                 (Re.search product_id_pattern (default "" title)))
              (default "" title) (price_of price_elem) (description_of descs meta)
              (Re.sub resolution_suffix "" (sanitize_filename high_res_url)),
            high_res_url)
    else None.
Proof.
  intros Htitle Hprice Hsel Hmeta Hog Himg. unfold product_of_page, extract_product.
  rewrite Htitle. simpl.
  rewrite (extract_price_ret pg price_elem) by done. simpl.
  rewrite (extract_description_ret pg descs meta) by done. simpl.
  rewrite (extract_image_url_ret pg og img) by done. simpl.
  by destruct (Py.truthy _).
Qed.

Lemma truthy_ne s : s ≠ "" → Py.truthy s = true.
Proof. by destruct s. Qed.

Lemma image_reference_og og img :
  Py.strip (og_content og) ≠ "" → image_reference og img = Py.strip (og_content og).
Proof. by destruct og as [[[|c content]|]|]. Qed.

Lemma image_reference_img og img :
  og_content og = "" →
  image_reference og img = match img with Some src => Py.strip src | None => "" end.
Proof. by destruct og as [[[|c content]|]|]. Qed.

Lemma description_loop_raise pg before sel after :
  Forall (λ s, ∀ text, select_one_text pg s ≠ Ret (Some text)) before →
  select_one_text pg sel = Raise →
  description_loop pg (before ++ sel :: after) = Raise.
Proof.
  intros Hbefore Hsel. induction Hbefore as [|s before Hs _ IH]; simpl.
  - by rewrite Hsel.
  - destruct (select_one_text pg s) as [[text|]|]; simpl; [|done..]. by destruct (Hs text).
Qed.

(** Whatever raises in the body of the parser, there is no result. *)
Lemma product_of_page_raise pg :
  h1_text pg = Raise ∨ extract_price pg = Raise ∨ extract_description pg = Raise
  ∨ extract_image_url pg = Raise →
  product_of_page (Some pg) = None.
Proof.
  unfold product_of_page, extract_product. intros H.
  destruct (h1_text pg); [|done]. simpl.
  destruct (extract_price pg); [|done]. simpl.
  destruct (extract_description pg); [|done]. simpl.
  destruct (extract_image_url pg); [|done]. naive_solver.
Qed.

(** C4, as the parser has it.  A query that raises makes the parser
    return no result, whichever field it is for: the handler is around
    the whole body.  This holds for the title, the price element, each
    description container that is consulted, the meta description when
    no container gave a text, the [og:image] tag, and the first image
    when the tag has no content.  When no query raises, a result is
    produced exactly when the image reference is not blank: whenever
    the [og:image] content is not blank, or is missing or empty while
    the first image has a [src] that is not blank; there is no result
    when the content is blank but not empty, even if an image has a
    [src], nor when there is no content and the [src] is missing or
    blank.  A missing title, price or description is replaced by its
    default and a price text that is no number by no price. *)
Theorem product_page_result (pg : soup) :
  (h1_text pg = Raise → product_of_page (Some pg) = None)
  ∧ (price_text pg = Raise → product_of_page (Some pg) = None)
  ∧ (∀ before sel after,
       desc_selectors = before ++ sel :: after →
       Forall (λ s, ∀ text, select_one_text pg s ≠ Ret (Some text)) before →
       select_one_text pg sel = Raise → product_of_page (Some pg) = None)
  ∧ (∀ descs,
       (∀ sel, select_one_text pg sel = Ret (descs sel)) →
       first_description descs desc_selectors = "" →
       meta_description pg = Raise → product_of_page (Some pg) = None)
  ∧ (og_image pg = Raise → product_of_page (Some pg) = None)
  ∧ (∀ og, og_image pg = Ret og → og_content og = "" →
       img_src pg = Raise → product_of_page (Some pg) = None)
  ∧ ∀ title price_elem descs meta og img,
      h1_text pg = Ret title → price_text pg = Ret price_elem →
      (∀ sel, select_one_text pg sel = Ret (descs sel)) →
      meta_description pg = Ret meta → og_image pg = Ret og → img_src pg = Ret img →
      let produced (image_url : string) :=
        ∃ product,
          product_of_page (Some pg) = Some (product, strip_resolution_suffix image_url)
          ∧ Product.name product = default "" title
          ∧ (title = None → Product.id product = "")
          ∧ (price_elem = None → Product.price product = None)
          ∧ (∀ txt, price_elem = Some txt →
               float_of (Re.sub not_price_chars "" txt) = Raise →
               Product.price product = None)
          ∧ ((∀ sel, descs sel = None) → meta = None → Product.description product = "") in
      (Py.strip (og_content og) ≠ "" → produced (Py.strip (og_content og)))
      ∧ (∀ src, og_content og = "" → img = Some src → Py.strip src ≠ "" →
           produced (Py.strip src))
      ∧ (og_content og = "" → img = None → product_of_page (Some pg) = None)
      ∧ (og_content og ≠ "" → Py.strip (og_content og) = "" →
           product_of_page (Some pg) = None)
      ∧ (∀ src, og_content og = "" → img = Some src → Py.strip src = "" →
           product_of_page (Some pg) = None).
Proof.
  split_and!.
  - intros H. apply product_of_page_raise. by left.
  - intros H. apply product_of_page_raise. right. left. unfold extract_price. by rewrite H.
  - intros before sel after Hsels Hbefore Hsel. apply product_of_page_raise.
    right. right. left. unfold extract_description.
    by rewrite Hsels, (description_loop_raise pg before sel after).
  - intros descs Hdescs Hnone Hmeta. apply product_of_page_raise.
    right. right. left. unfold extract_description.
    rewrite (description_loop_ret pg descs), Hnone by done. simpl.
    by rewrite Hmeta.
  - intros H. apply product_of_page_raise. do 3 right. unfold extract_image_url.
    by rewrite H.
  - intros og Hog Hcontent Himg. apply product_of_page_raise. do 3 right.
    unfold extract_image_url. rewrite Hog. simpl.
    destruct og as [[[|c content]|]|]; try done; by rewrite Himg.
  - intros title price_elem descs meta og img Htitle Hprice Hsel Hmeta Hog Himg produced.
    pose proof (product_of_page_ret pg _ _ _ _ _ _ Htitle Hprice Hsel Hmeta Hog Himg) as Hret.
    assert (∀ url, image_reference og img = url → url ≠ "" → produced url) as Hprod.
    { intros url Href Hurl. rewrite Href, truthy_ne in Hret by done.
      eexists. split; [exact Hret|]. simpl. split_and!.
      - done.
      - by intros ->.
      - by intros ->.
      - intros txt -> Hfloat. simpl. rewrite Hfloat. by destruct (Py.truthy _).
      - intros Hnone ->. unfold description_of.
        assert (first_description descs desc_selectors = "") as ->; [|done].
        generalize desc_selectors. intros sels.
        induction sels as [|sel sels IH]; [done|]. simpl. by rewrite Hnone. }
    split_and!.
    + intros Hc. apply Hprod; [|done]. by apply image_reference_og.
    + intros src Hc -> Hsrc. apply Hprod; [|done]. by rewrite image_reference_img.
    + intros Hc ->. by rewrite Hret, image_reference_img.
    + intros Hc Hblank. rewrite Hret.
      destruct og as [[[|c content]|]|]; try done. simpl in *. by rewrite Hblank.
    + intros src Hc -> Hblank. by rewrite Hret, image_reference_img, Hblank.
Qed.

(** C4, as stated, fails: this page has an image with a [src], its
    [og:image] tag has a blank content, no query raises, and the parser
    returns no result. *)
Lemma blank_og_image_hides_img :
  og_image blank_og_page = Ret (Some (Some " "))
  ∧ img_src blank_og_page = Ret (Some "https://cdn.shopify.com/s/files/S8-SB30.jpg")
  ∧ product_of_page (Some blank_og_page) = None.
Proof. done. Qed.

(** ** Traces *)

Lemma catalog_of_quiet evs t : Forall quiet evs → catalog_of (evs ++ t) = catalog_of t.
Proof. induction 1 as [|[] evs He _ IH]; simpl; done. Qed.

Lemma listings_quiet evs t : Forall quiet evs → listings (evs ++ t) = listings t.
Proof. induction 1 as [|[] evs He _ IH]; simpl; done. Qed.

Lemma puts_fresh_quiet evs t : Forall quiet evs → puts_fresh (evs ++ t) ↔ puts_fresh t.
Proof. induction 1 as [|[] evs He _ IH]; simpl; done. Qed.

Lemma puts_fresh_suffix t1 t2 : t1 `suffix_of` t2 → puts_fresh t2 → puts_fresh t1.
Proof.
  intros [evs ->]. induction evs as [|e evs IH]; [done|].
  destruct e; simpl; naive_solver.
Qed.

(** With fresh puts only, what the catalog holds stays. *)
Lemma catalog_of_grows t1 t2 key product :
  t1 `suffix_of` t2 → puts_fresh t2 →
  catalog_of t1 !! key = Some product → catalog_of t2 !! key = Some product.
Proof.
  intros [evs ->]. induction evs as [|e evs IH]; [done|].
  destruct e as [| | |key' product']; simpl; try naive_solver.
  intros [Hnone Hfresh] Hkey. specialize (IH Hfresh Hkey).
  rewrite lookup_insert_ne; [done|]. intros ->. congruence.
Qed.

Lemma catalog_of_dom t key :
  key ∈ dom (catalog_of t) → ∃ product, Put key product ∈ t.
Proof.
  induction t as [|e t IH]; simpl.
  - set_solver.
  - destruct e as [| | |key' product']; try (intros [p Hp]%IH; exists p; set_solver).
    rewrite dom_insert. intros [->%elem_of_singleton|[p Hp]%IH]%elem_of_union.
    + exists product'. set_solver.
    + exists p. set_solver.
Qed.

(** ** The orchestrator, step by step *)

Section OrchestratorFacts.
Context {W : Type}.
Variable urljoin : string → string → string.
Variable session_get : W → string → W * exn response.

#[local] Abbreviation crawl := (@crawl W).
#[local] Abbreviation absolute := (absolute urljoin).
#[local] Abbreviation keys_of := (keys_of urljoin).
#[local] Abbreviation listed := (listed urljoin).
#[local] Abbreviation puts_listed := (puts_listed urljoin).
#[local] Abbreviation page_run := (page_run urljoin).
#[local] Abbreviation filter_new := (filter_new urljoin).
#[local] Abbreviation visit := (visit urljoin session_get).
#[local] Abbreviation page_turn := (page_turn urljoin session_get).
#[local] Abbreviation paginate := (paginate urljoin session_get).
#[local] Abbreviation process_style := (process_style urljoin session_get).
#[local] Abbreviation process_category := (process_category urljoin session_get).
#[local] Abbreviation style_pages := (style_pages urljoin session_get).

Lemma keys_of_cons link links :
  keys_of (link :: links) = {[dedup_key (absolute link)]} ∪ keys_of links.
Proof. done. Qed.

Lemma keys_of_app l1 l2 : keys_of (l1 ++ l2) = keys_of l1 ∪ keys_of l2.
Proof. unfold keys_of. rewrite fmap_app. apply leibniz_equiv, list_to_set_app. Qed.

Lemma elem_of_keys_of key links :
  key ∈ keys_of links ↔ ∃ link, link ∈ links ∧ key = dedup_key (absolute link).
Proof.
  unfold keys_of. rewrite elem_of_list_to_set, list_elem_of_fmap. naive_solver.
Qed.

(** The seen-set takes the keys of all the links; the new links are
    the first link of every new key. *)
Lemma filter_new_spec links seen acc :
  (filter_new links seen acc).1 = seen ∪ keys_of links
  ∧ ∃ fresh,
      (filter_new links seen acc).2 = acc ++ fresh
      ∧ (fresh = [] ↔ keys_of links ⊆ seen)
      ∧ Forall (λ url, ∃ link, link ∈ links ∧ url = absolute link) fresh.
Proof.
  revert seen acc. induction links as [|link links IH]; intros seen acc; simpl.
  - split; [set_solver|]. exists []. rewrite app_nil_r. set_solver.
  - rewrite keys_of_cons. case_decide as Hkey.
    + destruct (IH seen acc) as (-> & fresh & -> & Hfresh & Hall). split; [set_solver|].
      exists fresh. split_and!; [done|set_solver|].
      eapply Forall_impl; [done|]. set_solver.
    + destruct (IH ({[dedup_key (absolute link)]} ∪ seen) (acc ++ [absolute link]))
        as (-> & fresh & -> & Hfresh & Hall). split; [set_solver|].
      exists (absolute link :: fresh). rewrite <- app_assoc. split_and!; [done|set_solver|].
      constructor; [set_solver|]. eapply Forall_impl; [done|]. set_solver.
Qed.

(** One visit: nothing but quiet events, and at most one put, for a
    key that the catalog did not have. *)
Lemma visit_cases category_folder st url :
  ∃ evs, Forall quiet evs
    ∧ ((collected (visit category_folder st url) = collected st
        ∧ trace (visit category_folder st url) = evs ++ trace st)
       ∨ (collected st !! dedup_key url = None
          ∧ ∃ product,
              collected (visit category_folder st url)
              = <[dedup_key url := product]> (collected st)
              ∧ trace (visit category_folder st url)
                = Put (dedup_key url) product :: evs ++ trace st)).
Proof.
  unfold visit. destruct (collected st !! dedup_key url) eqn:Hkey.
  { exists []. split; [done|]. by left. }
  destruct (parse_product_page _ _ _ _) as [w [[product img_url]|]]; last first.
  { exists [Detail url false]. split; [by repeat constructor|]. by left. }
  destruct (Py.truthy _ && negb _)%bool.
  - destruct (download_image _ _ _ _ _) as [[w' fs] ok].
    eexists [Download _ _ _; Detail _ _]. split; [by repeat constructor|].
    right. split; [done|]. by eexists.
  - exists [Detail url true]. split; [by repeat constructor|].
    right. split; [done|]. by eexists.
Qed.

Lemma visit_extends category_folder st url :
  trace st `suffix_of` trace (visit category_folder st url).
Proof.
  destruct (visit_cases category_folder st url) as (evs & _ & [[_ ->] | (_ & p & _ & ->)]).
  - by eexists.
  - by exists (Put (dedup_key url) p :: evs).
Qed.

Lemma visit_sound category_folder st url :
  sound st → sound (visit category_folder st url).
Proof.
  intros [Hcat Hfresh].
  destruct (visit_cases category_folder st url)
    as (evs & Hq & [[Hc Ht] | (Hnone & p & Hc & Ht)]); split; rewrite ?Hc, ?Ht; simpl.
  - by rewrite catalog_of_quiet.
  - by apply puts_fresh_quiet.
  - by rewrite catalog_of_quiet, Hcat.
  - rewrite catalog_of_quiet, <- Hcat by done. split; [done|]. by apply puts_fresh_quiet.
Qed.

Lemma visit_listings category_folder st url :
  listings (trace (visit category_folder st url)) = listings (trace st).
Proof.
  destruct (visit_cases category_folder st url)
    as (evs & Hq & [[_ ->] | (_ & p & _ & ->)]); simpl; by rewrite listings_quiet.
Qed.

Lemma listed_suffix t1 t2 url : t1 `suffix_of` t2 → listed t1 url → listed t2 url.
Proof.
  intros [evs ->] (page & from & links & link & Hin & Hlink & ->).
  exists page, from, links, link. set_solver.
Qed.

Lemma visit_puts_listed category_folder st url :
  puts_listed (trace st) → listed (trace st) url →
  puts_listed (trace (visit category_folder st url)).
Proof.
  intros Hputs Hurl key product Hin.
  pose proof (visit_extends category_folder st url) as Hext.
  destruct (visit_cases category_folder st url)
    as (evs & Hq & [[_ Ht] | (_ & p & _ & Ht)]); rewrite Ht in Hin.
  - apply elem_of_app in Hin as [Hin | Hin].
    + eapply Forall_forall in Hq; [|done]. done.
    + destruct (Hputs _ _ Hin) as (u & Hu & ->). exists u. split; [|done].
      by eapply listed_suffix.
  - apply elem_of_cons in Hin as [[= -> ->] | Hin].
    { exists url. split; [|done]. by eapply listed_suffix. }
    apply elem_of_app in Hin as [Hin | Hin].
    + eapply Forall_forall in Hq; [|done]. done.
    + destruct (Hputs _ _ Hin) as (u & Hu & ->). exists u. split; [|done].
      by eapply listed_suffix.
Qed.

(** The visits of one page. *)
Lemma visits_invariant category_folder urls st :
  let st' := foldl (visit category_folder) st urls in
  trace st `suffix_of` trace st'
  ∧ listings (trace st') = listings (trace st)
  ∧ (sound st → sound st')
  ∧ (puts_listed (trace st) → Forall (listed (trace st)) urls → puts_listed (trace st')).
Proof.
  revert st. induction urls as [|url urls IH]; intros st; simpl.
  { done. }
  destruct (IH (visit category_folder st url)) as (Hext & Hlist & Hsound & Hputs).
  pose proof (visit_extends category_folder st url) as Hext1.
  split_and!.
  - by etrans.
  - by rewrite Hlist, visit_listings.
  - intros Hst. by apply Hsound, visit_sound.
  - intros Hst [Hurl Hurls]%Forall_cons. apply Hputs.
    + by apply visit_puts_listed.
    + eapply Forall_impl; [done|]. intros u. by apply listed_suffix.
Qed.

(** One turn of the loop: the listing is fetched; the turn breaks on
    a page without links or without new keys, and else visits the
    new links and passes on the seen-set with the keys of the page. *)
Lemma page_turn_cases category_folder base page seen st :
  let url := if decide (page = 1) then base else base +:+ "?page=" +:+ pretty page in
  let fetched := parse_collection_page session_get (world st) url in
  let st1 := {| world := fetched.1; files := files st; collected := collected st;
                trace := Listing page url fetched.2 :: trace st |} in
  match page_turn category_folder base page seen st with
  | Break st' => (fetched.2 = [] ∨ keys_of fetched.2 ⊆ seen) ∧ st' = st1
  | NextPage seen' st' =>
      fetched.2 ≠ [] ∧ ¬ keys_of fetched.2 ⊆ seen
      ∧ seen' = seen ∪ keys_of fetched.2
      ∧ ∃ urls, st' = foldl (visit category_folder) st1 urls
                ∧ Forall (listed (trace st1)) urls
  end.
Proof.
  intros url fetched st1. unfold page_turn. fold url.
  subst st1 fetched. destruct (parse_collection_page _ _ _) as [w links]. simpl.
  destruct links as [|link links]; [by split; [left|]|].
  destruct (filter_new_spec (link :: links) seen []) as (Hseen & fresh & Hnew & Hnil & Hall).
  destruct (filter_new _ _ _) as [seen' new_links]. simpl in *. subst seen' new_links.
  destruct fresh as [|u fresh].
  - split; [|done]. right. by apply Hnil.
  - split_and!; [done| |done|].
    + intros Hsub. by apply Hnil in Hsub.
    + exists (u :: fresh). split; [done|].
      eapply Forall_impl; [done|]. intros u' (l & Hl & ->).
      exists page, url, (link :: links), l. set_solver.
Qed.

Lemma page_turn_invariant category_folder base page seen st :
  let url := if decide (page = 1) then base else base +:+ "?page=" +:+ pretty page in
  let links := (parse_collection_page session_get (world st) url).2 in
  let st' := after (page_turn category_folder base page seen st) in
  trace st `suffix_of` trace st'
  ∧ listings (trace st') = listings (trace st) ++ [(page, links)]
  ∧ (sound st → sound st')
  ∧ (puts_listed (trace st) → puts_listed (trace st')).
Proof.
  intros url links st'. subst st'.
  pose proof (page_turn_cases category_folder base page seen st) as Hcases.
  simpl in Hcases. fold url in Hcases. fold links in Hcases.
  set (st1 := {| world := _; trace := Listing page url links :: trace st |}) in Hcases.
  assert (trace st `suffix_of` trace st1) as Hext1 by (by exists [Listing page url links]).
  assert (puts_listed (trace st) → puts_listed (trace st1)) as Hputs1.
  { intros Hputs key product [[=]|Hin]%elem_of_cons.
    destruct (Hputs _ _ Hin) as (u & Hu & ->). exists u. split; [|done].
    by eapply listed_suffix. }
  destruct (page_turn _ _ _ _ _) as [st'|seen' st']; simpl.
  - destruct Hcases as [_ ->]. done.
  - destruct Hcases as (_ & _ & _ & urls & -> & Hurls).
    destruct (visits_invariant category_folder urls st1) as (Hext & Hlist & Hsound & Hputs).
    split_and!; [by etrans|by rewrite Hlist|by intros ?%Hsound|].
    intros Hst. apply Hputs; [by apply Hputs1|done].
Qed.

(** The loop: what holds of the state before holds after, and the
    pages fetched form a run. *)
Lemma paginate_invariant fuel category_folder base page seen st :
  let st' := paginate fuel category_folder base page seen st in
  trace st `suffix_of` trace st'
  ∧ (sound st → sound st')
  ∧ (puts_listed (trace st) → puts_listed (trace st'))
  ∧ ∃ pages, listings (trace st') = listings (trace st) ++ pages
             ∧ page_run seen page pages.
Proof.
  revert page seen st. induction fuel as [|fuel IH]; intros page seen st; simpl.
  { split_and!; [done..|]. exists []. rewrite app_nil_r. split; [done|]. constructor. }
  case_decide as Hpage; last first.
  { split_and!; [done..|]. exists []. rewrite app_nil_r. split; [done|]. constructor. }
  pose proof (page_turn_cases category_folder base page seen st) as Hcases.
  pose proof (page_turn_invariant category_folder base page seen st) as Hinv.
  simpl in Hcases, Hinv.
  destruct (page_turn _ _ _ _ _) as [st'|seen' st']; simpl in Hinv.
  - destruct Hinv as (Hext & Hlist & Hsound & Hputs), Hcases as [Hstop _].
    split_and!; [done..|]. eexists. split; [done|]. by constructor.
  - destruct Hinv as (Hext & Hlist & Hsound & Hputs).
    destruct Hcases as (Hlinks & Hnew & -> & _).
    destruct (IH (page + 1) (seen ∪ keys_of
      (parse_collection_page session_get (world st)
         (if decide (page = 1) then base else base +:+ "?page=" +:+ pretty page)).2) st')
      as (Hext' & Hsound' & Hputs' & pages & Hlist' & Hrun).
    split_and!; [by etrans|by intros ?%Hsound%Hsound'|by intros ?%Hputs%Hputs'|].
    eexists. rewrite Hlist', Hlist, <- app_assoc. split; [done|]. simpl.
    by constructor.
Qed.

(** [max_pages] turns of fuel are enough for the loop from page 1. *)
Lemma paginate_fuel fuel extra category_folder base page seen st :
  max_pages + 1 - page ≤ fuel →
  paginate (fuel + extra) category_folder base page seen st
  = paginate fuel category_folder base page seen st.
Proof.
  revert page seen st. induction fuel as [|fuel IH]; intros page seen st Hfuel; simpl.
  - destruct extra as [|extra]; [done|]. simpl. case_decide; [lia|done].
  - case_decide; [|done]. destruct (page_turn _ _ _ _ _); [done|].
    apply IH. lia.
Qed.

Lemma process_style_invariant cat st style :
  let st' := process_style cat st style in
  trace st `suffix_of` trace st'
  ∧ (sound st → sound st')
  ∧ (puts_listed (trace st) → puts_listed (trace st'))
  ∧ listings (trace st') = listings (trace st) ++ style_pages cat st style
  ∧ page_run ∅ 1 (style_pages cat st style).
Proof.
  simpl. unfold style_pages, process_style.
  destruct (paginate_invariant max_pages (path_join "output" (cat_id cat))
    (BASE_URL +:+ "/collections/" +:+ style +:+ "-" +:+ cat_slug cat) 1 ∅ st)
    as (Hext & Hsound & Hputs & pages & Hlist & Hrun).
  rewrite Hlist, drop_app_length. done.
Qed.

Lemma styles_invariant cat styles st :
  let st' := foldl (process_style cat) st styles in
  trace st `suffix_of` trace st'
  ∧ (sound st → sound st')
  ∧ (puts_listed (trace st) → puts_listed (trace st')).
Proof.
  revert st. induction styles as [|style styles IH]; intros st; simpl; [done|].
  destruct (IH (process_style cat st style)) as (Hext & Hsound & Hputs).
  destruct (process_style_invariant cat st style) as (Hext1 & Hsound1 & Hputs1 & _).
  split_and!; [by etrans|by intros ?%Hsound1%Hsound|by intros ?%Hputs1%Hputs].
Qed.

Lemma process_category_invariant w fs cat :
  sound (process_category w fs cat) ∧ puts_listed (trace (process_category w fs cat)).
Proof.
  unfold process_category.
  destruct (styles_invariant cat STYLE_CODES
    {| world := w; files := fs; collected := ∅; trace := [] |}) as (_ & Hsound & Hputs).
  split; [by apply Hsound|]. apply Hputs. by intros key product ?%elem_of_nil.
Qed.

(** *** Runs of pages *)

Lemma page_run_length seen page pages :
  page_run seen page pages → length pages ≤ max_pages + 1 - page.
Proof. induction 1; cbn [length]; unfold max_pages in *; lia. Qed.

Lemma page_run_numbers seen page pages :
  page_run seen page pages → pages.*1 = seq page (length pages).
Proof.
  induction 1 as [| |seen page links rest _ _ _ _ IH]; [done..|].
  rewrite fmap_cons, IH, Nat.add_1_r. done.
Qed.

Lemma keys_of_pages_cons page links pages :
  keys_of_pages urljoin ((page, links) :: pages)
  = keys_of links ∪ keys_of_pages urljoin pages.
Proof. unfold keys_of_pages. simpl. apply keys_of_app. Qed.

(** The run ends with the first page that has no link or no key that
    is new. *)
Lemma page_run_stop seen page pre q links post :
  page_run seen page (pre ++ (q, links) :: post) →
  links = [] ∨ keys_of links ⊆ seen ∪ keys_of_pages urljoin pre →
  post = [].
Proof.
  revert seen page. induction pre as [|[p0 l0] pre IH]; intros seen page Hrun Hstop.
  - simpl in Hrun. inversion Hrun as [| |? ? ? ? _ Hlinks Hnew _]; subst; [done|].
    destruct Hstop as [-> | Hsub]; [done|]. destruct Hnew.
    unfold keys_of_pages in Hsub. simpl in Hsub. set_solver.
  - simpl in Hrun. inversion Hrun as [|? ? ? _ _ Heq|? ? ? ? _ _ _ Hrest]; subst.
    + by destruct pre.
    + apply (IH _ _ Hrest). destruct Hstop as [-> | Hsub]; [by left|right].
      rewrite keys_of_pages_cons in Hsub. set_solver.
Qed.

Lemma keys_of_same l1 l2 : (∀ link, link ∈ l1 ↔ link ∈ l2) → keys_of l1 = keys_of l2.
Proof.
  intros Hsame. apply set_eq. intros key. rewrite !elem_of_keys_of. naive_solver.
Qed.

Lemma keys_of_pages_elem page links pages :
  (page, links) ∈ pages → keys_of links ⊆ keys_of_pages urljoin pages.
Proof.
  induction pages as [|[p l] pages IH]; [by intros ?%elem_of_nil|].
  rewrite keys_of_pages_cons. intros [[= <- <-]|Hin]%elem_of_cons; set_solver.
Qed.

(** The page number of an entry of a run is its position. *)
Lemma page_run_lookup seen page pages i q links :
  page_run seen page pages → pages !! i = Some (q, links) → q = page + i.
Proof.
  intros Hrun%page_run_numbers Hi.
  assert (pages.*1 !! i = Some q) as Hq by (by rewrite list_lookup_fmap, Hi).
  rewrite Hrun in Hq. by apply lookup_seq in Hq as [-> _].
Qed.

(** Two pages in a row with the same links end the run. *)
Lemma page_run_repeat seen page pages n l1 l2 l3 :
  page_run seen page pages →
  (n, l1) ∈ pages → (n + 1, l2) ∈ pages → (∀ link, link ∈ l1 ↔ link ∈ l2) →
  (n + 2, l3) ∉ pages.
Proof.
  intros Hrun [i Hi]%list_elem_of_lookup [j Hj]%list_elem_of_lookup Hsame
    [k Hk]%list_elem_of_lookup.
  pose proof (page_run_lookup _ _ _ _ _ _ Hrun Hi).
  pose proof (page_run_lookup _ _ _ _ _ _ Hrun Hj).
  pose proof (page_run_lookup _ _ _ _ _ _ Hrun Hk).
  assert (j = S i) as -> by lia. assert (k = S (S i)) as -> by lia.
  pose proof (take_drop_middle _ _ _ Hj) as Hsplit.
  rewrite <- Hsplit in Hrun. apply page_run_stop in Hrun.
  - apply (f_equal length) in Hrun. rewrite length_drop in Hrun. simpl in Hrun.
    apply lookup_lt_Some in Hk. lia.
  - right. rewrite <- (keys_of_same l1 l2 Hsame).
    assert ((n, l1) ∈ take (S i) pages) as Hin.
    { apply list_elem_of_lookup. exists i. by rewrite lookup_take_lt by lia. }
    apply keys_of_pages_elem in Hin. set_solver.
Qed.

(** *** The claims about the crawl *)

(** C8. Pagination of a style stops on repetition: when pages [n] and
    [n + 1] of a style list the same links, page [n + 2] is never
    fetched; more generally no page is fetched after one that has no
    link, or no link whose key is new with respect to the pages
    before it; and the seen-set that a turn of the loop passes on
    contains the one it started from. *)
Theorem pagination_stops_on_repetition cat (st : crawl) style :
  (∀ n l1 l2 l3,
     (n, l1) ∈ style_pages cat st style → (n + 1, l2) ∈ style_pages cat st style →
     l1 ≠ [] → (∀ link, link ∈ l1 ↔ link ∈ l2) →
     (n + 2, l3) ∉ style_pages cat st style)
  ∧ (∀ pre q links post,
       style_pages cat st style = pre ++ (q, links) :: post →
       links = [] ∨ keys_of links ⊆ keys_of_pages urljoin pre →
       post = [])
  ∧ (∀ category_folder base page seen seen' st',
       page_turn category_folder base page seen st = NextPage seen' st' →
       seen ⊆ seen').
Proof.
  destruct (process_style_invariant cat st style) as (_ & _ & _ & _ & Hrun).
  split_and!.
  - intros n l1 l2 l3 H1 H2 _ Hsame. by eapply page_run_repeat.
  - intros pre q links post Hpages Hstop. rewrite Hpages in Hrun.
    eapply page_run_stop; [done|]. destruct Hstop; [by left|right]. set_solver.
  - intros category_folder base page seen seen' st' Hturn.
    pose proof (page_turn_cases category_folder base page seen st) as Hcases.
    simpl in Hcases. rewrite Hturn in Hcases. destruct Hcases as (_ & _ & -> & _).
    set_solver.
Qed.

(** C9. For one style the loop fetches at most [max_pages] listing
    pages, numbered from 1 on, and it ends by itself: more fuel than
    [max_pages] turns changes nothing. *)
Theorem pagination_bounded cat (st : crawl) style :
  length (style_pages cat st style) ≤ max_pages
  ∧ (style_pages cat st style).*1 = seq 1 (length (style_pages cat st style))
  ∧ listings (trace (process_style cat st style))
    = listings (trace st) ++ style_pages cat st style
  ∧ ∀ extra,
      paginate (max_pages + extra) (path_join "output" (cat_id cat))
        (BASE_URL +:+ "/collections/" +:+ style +:+ "-" +:+ cat_slug cat) 1 ∅ st
      = process_style cat st style.
Proof.
  destruct (process_style_invariant cat st style) as (_ & _ & _ & Hlist & Hrun).
  split_and!.
  - apply page_run_length in Hrun. lia.
  - by apply page_run_numbers in Hrun.
  - done.
  - intros extra. apply paginate_fuel. unfold max_pages. lia.
Qed.

(** C10. A product is put into the catalog only under a key that the
    catalog does not have; what the catalog holds under a key at some
    point of the crawl, it holds at every later point; and the
    catalog at the end is the one that the puts built. *)
Theorem first_writer_wins w fs cat :
  let run := process_category w fs cat in
  (∀ key product t,
     Put key product :: t `suffix_of` trace run → catalog_of t !! key = None)
  ∧ (∀ t1 t2 key product,
       t1 `suffix_of` t2 → t2 `suffix_of` trace run →
       catalog_of t1 !! key = Some product → catalog_of t2 !! key = Some product)
  ∧ collected run = catalog_of (trace run).
Proof.
  intros run. destruct (process_category_invariant w fs cat) as [[Hcat Hfresh] _].
  fold run in Hcat, Hfresh. split_and!.
  - intros key product t Hsuffix.
    by destruct (puts_fresh_suffix _ _ Hsuffix Hfresh) as [? _].
  - intros t1 t2 key product H12 H2. apply catalog_of_grows; [done|].
    by eapply puts_fresh_suffix.
  - done.
Qed.

(** The keys of the catalog are keys of listed links, at every point
    of the crawl. *)
Lemma catalog_keys_listed w fs cat t key :
  t `suffix_of` trace (process_category w fs cat) → key ∈ dom (catalog_of t) →
  ∃ page from links link,
    Listing page from links ∈ trace (process_category w fs cat)
    ∧ link ∈ links ∧ key = dedup_key (absolute link).
Proof.
  intros [evs Ht] [product Hput]%catalog_of_dom.
  destruct (process_category_invariant w fs cat) as [_ Hputs].
  destruct (Hputs key product) as (url & (page & from & links & link & ? & ? & ->) & ->).
  { rewrite Ht. set_solver. }
  by exists page, from, links, link.
Qed.

(** C2, as the code has it.  On a URL without line feed the key is
    the text before the first [/], [?] or [#]: [http:] for a URL that
    starts with [http://] and [https:] for one that starts with
    [https://].  The catalog holds one product per key at most, so
    that when all the links listed in a crawl have the same key, it
    holds one product at most at every point of the crawl. *)
Theorem one_product_per_key w fs cat :
  (∀ url, Py.mem Py.LF url = false → dedup_key url = prefix_before key_delimiter url)
  ∧ (∀ rest, Py.mem Py.LF rest = false →
       dedup_key ("http://" +:+ rest) = "http:"
       ∧ dedup_key ("https://" +:+ rest) = "https:")
  ∧ (∀ key,
       (∀ page from links link,
          Listing page from links ∈ trace (process_category w fs cat) →
          link ∈ links → dedup_key (absolute link) = key) →
       ∀ t, t `suffix_of` trace (process_category w fs cat) →
            size (catalog_of t) ≤ 1).
Proof.
  split_and!.
  - apply dedup_key_prefix.
  - intros rest Hrest. split; [by apply dedup_key_http|by apply dedup_key_https].
  - intros key Hkeys t Ht.
    assert (dom (catalog_of t) ⊆ {[key]}) as Hdom.
    { intros k Hk. destruct (catalog_keys_listed w fs cat t k Ht Hk)
        as (page & from & links & link & Hin & Hlink & ->).
      apply elem_of_singleton. by eapply Hkeys. }
    apply subseteq_size in Hdom. by rewrite size_dom, size_singleton in Hdom.
Qed.

End OrchestratorFacts.

(** ** The claims on the sites of the examples *)

(** C3. When the download of an image fails, the product is put into
    the catalog with the name of the file that was not written, not
    with an empty image field: here the first image cannot be fetched,
    its file is not on disk, and the product has its name. *)
Theorem failed_download_keeps_filename :
  let run := process_category example_urljoin two_scheme_site () ∅ sink_base in
  downloads (trace run)
  = [("https://cdn.shopify.com/s/files/S8-SB30.jpg?v=1",
      "output/689cba9eca19d8fef712c080/S8-SB30.jpg", false);
     ("https://cdn.shopify.com/s/files/S8-SB33.jpg?v=1",
      "output/689cba9eca19d8fef712c080/S8-SB33.jpg", true)]
  ∧ bool_decide ("output/689cba9eca19d8fef712c080/S8-SB30.jpg" ∈ files run) = false
  ∧ Product.image <$> collected run !! "https:" = Some "S8-SB30.jpg".
Proof. by vm_compute. Qed.

(** Whatever the site, a product that is put after a download was
    attempted has the name of the file as its image. *)
Lemma visit_image_kept {W : Type} urljoin (session_get : W → string → W * exn response)
    category_folder (st : crawl) url product img_url :
  collected st !! dedup_key url = None →
  (parse_product_page urljoin session_get (world st) url).2 = Some (product, img_url) →
  collected (visit urljoin session_get category_folder st url) !! dedup_key url
  = Some product.
Proof.
  intros Hkey Hparse. unfold visit. rewrite Hkey.
  destruct (parse_product_page _ _ _ _) as [w result]. simpl in Hparse. subst result.
  destruct (Py.truthy _ && negb _)%bool.
  - destruct (download_image _ _ _ _ _) as [[w' fs] ok]. simpl. by rewrite lookup_insert_eq.
  - simpl. by rewrite lookup_insert_eq.
Qed.

(** C2, as stated, fails: a listing with an [https] and an [http] link
    gives two keys and two products. *)
Lemma two_schemes_two_products :
  dedup_key (absolute example_urljoin "https://www.jkcabinetry.com/products/s8-sb30")
  = "https:"
  ∧ dedup_key (absolute example_urljoin "http://www.jkcabinetry.com/products/s8-sb33")
    = "http:"
  ∧ size (collected (process_category example_urljoin two_scheme_site () ∅ sink_base)) = 2.
Proof. by vm_compute. Qed.

(** The cap of C9 is reached on a site that has new links on every
    page. *)
Example endless_site_pages :
  (style_pages example_urljoin endless_site sink_base (start 0) "s8").*1 = seq 1 20.
Proof. by vm_compute. Qed.

(** Two products of one listing share the key [https:]: the second is
    never fetched. *)
Example repeating_site_style :
  rev (trace (process_style example_urljoin repeating_site sink_base (start ()) "s8"))
  = [Listing 1 "https://www.jkcabinetry.com/collections/s8-sink-base-cabinet"
       ["/products/s8-sb30"; "/products/s8-sb33?variant=1"];
     Detail "https://www.jkcabinetry.com/products/s8-sb30" true;
     Download "https://cdn.shopify.com/s/files/S8-SB30.jpg?v=1"
       "output/689cba9eca19d8fef712c080/S8-SB30.jpg" true;
     Put "https:"
       (Product.make "S8/SB30" "S8/SB30 Sink Base" (Some (Float "312.00")) "" "S8-SB30.jpg");
     Listing 2 "https://www.jkcabinetry.com/collections/s8-sink-base-cabinet?page=2"
       ["/products/s8-sb30"; "/products/s8-sb33?variant=1"]].
Proof. by vm_compute. Qed.

(** [$] also matches before a final line feed. *)
Example strip_resolution_suffix_line_feed :
  strip_resolution_suffix ("a_12x34.jpg" +:+ String Py.LF "") = "a.jpg" +:+ String Py.LF "".
Proof. by vm_compute. Qed.

Example strip_resolution_suffix_inner_marker :
  strip_resolution_suffix "https://cdn.shopify.com/s/files/S8_352x192_SB30.jpg?v=1_10x10.png"
  = "https://cdn.shopify.com/s/files/S8_352x192_SB30.jpg?v=1_10x10.png".
Proof. by vm_compute. Qed.

Example sanitize_filename_example :
  sanitize_filename "https://cdn.shopify.com/s/files/S8 SB30 (1).jpg?v=12" = "S8_SB30__1_.jpg".
Proof. by vm_compute. Qed.

(** ** The theorems at work *)

Lemma not_ends_in_marker base :
  Re.sub resolution_suffix "" base = base → ¬ ends_in_marker base.
Proof.
  intros Hsame (p & w & h & e & Hbase & Hw & Hh & He).
  assert (base = p +:+ String "_" (w +:+ String "x" (h +:+ String "." e))) as ->
    by (rewrite Hbase; by str_norm).
  rewrite sub_marker in Hsame by done. apply (f_equal String.length) in Hsame.
  rewrite !slength_app in Hsame. simpl in Hsame. rewrite !slength_app in Hsame.
  simpl in Hsame. rewrite !slength_app in Hsame. simpl in Hsame. lia.
Qed.

Lemma elem_of_listings t page from links :
  Listing page from links ∈ t → (page, links) ∈ listings t.
Proof.
  induction t as [|e t IH]; [by intros ?%elem_of_nil|].
  intros [<-|Hin]%elem_of_cons; simpl; [set_solver|].
  destruct e; try by apply IH. apply elem_of_app. left. by apply IH.
Qed.

Lemma keys_forall urljoin key t :
  all_keyed urljoin key (listings t) = true →
  ∀ page from links link,
    Listing page from links ∈ t → link ∈ links → dedup_key (absolute urljoin link) = key.
Proof.
  intros Hall page from links link Hin%elem_of_listings Hlink. unfold all_keyed in Hall.
  rewrite forallb_forall in Hall. apply list_elem_of_In in Hin. specialize (Hall _ Hin).
  simpl in Hall. rewrite forallb_forall in Hall. apply list_elem_of_In in Hlink.
  by apply String.eqb_eq, Hall.
Qed.

Lemma sanitize_filename_idempotent_witness :
  sanitize_filename (sanitize_filename "files/S8 SB30 (1).jpg?v=12")
  = sanitize_filename "files/S8 SB30 (1).jpg?v=12"
  ∧ sanitize_filename
      ("https://cdn.shopify.com/s/files" +:+ "/" +:+ "S8 SB30 (1).jpg" +:+ "?" +:+ "v=12")
    = "S8_SB30__1_.jpg".
Proof.
  destruct sanitize_filename_idempotent as (Hidem & _ & _ & Hparts & _). split.
  - exact (Hidem "files/S8 SB30 (1).jpg?v=12").
  - refine (eq_trans
      (proj1 (Hparts "https://cdn.shopify.com/s/files" "S8 SB30 (1).jpg" "v=12" _ _ _)) _);
      vm_compute; reflexivity.
Defined.

Lemma strip_resolution_suffix_spec_witness :
  strip_resolution_suffix
    ("https://cdn.shopify.com/s/files/S8-SB30" +:+ "_" +:+ "352" +:+ "x" +:+ "192"
     +:+ "." +:+ "jpg" +:+ "?v=1")
  = "https://cdn.shopify.com/s/files/S8-SB30" +:+ "." +:+ "jpg" +:+ "?v=1"
  ∧ strip_resolution_suffix ("https://cdn.shopify.com/s/files/S8_352x192_SB30.jpg" +:+ "?v=1")
    = "https://cdn.shopify.com/s/files/S8_352x192_SB30.jpg" +:+ "?v=1".
Proof.
  destruct strip_resolution_suffix_spec as [Hmarked Hplain]. split.
  - apply Hmarked.
    + reflexivity.
    + split; [reflexivity|simpl; lia].
    + split; [reflexivity|simpl; lia].
    + split; [reflexivity|simpl; lia].
    + right. exists "v=1". reflexivity.
  - apply Hplain.
    + reflexivity.
    + right. exists "v=1". reflexivity.
    + reflexivity.
    + apply not_ends_in_marker. reflexivity.
Defined.

Lemma extraction_strategy_order_witness :
  collection_links (Some shopify_listing) = ["/products/s8-sb30"; "/products/s8-sb33"]
  ∧ collection_links (Some malformed_listing) = ["/products/s8-sb36"]
  ∧ collection_links (Some plain_listing) = ["/products/s8-sb36"].
Proof.
  split; [|split].
  - destruct (extraction_strategy_order shopify_listing) as (Hfirst & _).
    destruct Hfirst as [Hlinks _]; [discriminate|exact Hlinks].
  - destruct (extraction_strategy_order malformed_listing) as (_ & Hsecond & _).
    apply (Hsecond eq_refl ["div.grid__item"; "div.product-card"] "li.grid__item"
             ["li.product-card"]).
    + reflexivity.
    + repeat constructor.
    + discriminate.
  - destruct (extraction_strategy_order plain_listing) as (_ & _ & Hthird & _).
    apply (Hthird eq_refl). repeat constructor.
Defined.

Lemma product_page_result_witness :
  product_of_page (Some title_raises_page) = None
  ∧ product_of_page (Some description_raises_page) = None
  ∧ product_of_page (Some blank_og_page) = None
  ∧ ∃ product,
      product_of_page
        (Some (detail_page "S8/SB30 Sink Base" "$1.312.00"
                 " https://cdn.shopify.com/s/files/S8-SB30_352x192.jpg?v=1 "))
      = Some (product, "https://cdn.shopify.com/s/files/S8-SB30.jpg?v=1")
      ∧ Product.name product = "S8/SB30 Sink Base"
      ∧ Product.price product = None
      ∧ Product.description product = "".
Proof.
  split_and!.
  - apply (proj1 (product_page_result title_raises_page)). reflexivity.
  - destruct (product_page_result description_raises_page) as (_ & _ & Hdesc & _).
    apply (Hdesc ["div.product-description"] "div#ProductDescription"
             ["div#product_description"; "div[itemprop='description']"]).
    + reflexivity.
    + constructor; [|constructor]. intros text H. discriminate H.
    + reflexivity.
  - destruct (product_page_result blank_og_page) as (_ & _ & _ & _ & _ & _ & Hret).
    destruct (Hret (Some "S8/SB30 Sink Base") (Some "$312.00") (λ _, None) None
      (Some (Some " ")) (Some "https://cdn.shopify.com/s/files/S8-SB30.jpg")
      eq_refl eq_refl (λ _, eq_refl) eq_refl eq_refl eq_refl) as (_ & _ & _ & Hblank & _).
    apply Hblank; [discriminate|reflexivity].
  - destruct (product_page_result
        (detail_page "S8/SB30 Sink Base" "$1.312.00"
           " https://cdn.shopify.com/s/files/S8-SB30_352x192.jpg?v=1 "))
      as (_ & _ & _ & _ & _ & _ & Hret).
    destruct (Hret (Some "S8/SB30 Sink Base") (Some "$1.312.00") (λ _, None) None
        (Some (Some " https://cdn.shopify.com/s/files/S8-SB30_352x192.jpg?v=1 ")) None
        eq_refl eq_refl (λ _, eq_refl) eq_refl eq_refl eq_refl) as (Hog & _).
    destruct Hog as (product & Hresult & Hname & _ & _ & Hprice & Hdesc); [discriminate|].
    exists product. split; [exact Hresult|]. split; [exact Hname|]. split.
    + apply (Hprice "$1.312.00"); reflexivity.
    + apply Hdesc; reflexivity.
Defined.

Lemma pagination_stops_on_repetition_witness :
  (3, ["/products/s8-sb30"; "/products/s8-sb33?variant=1"])
  ∉ style_pages example_urljoin repeating_site sink_base (start ()) "s8".
Proof.
  destruct (pagination_stops_on_repetition example_urljoin repeating_site sink_base
              (start ()) "s8") as (Hrepeat & _ & _).
  apply (Hrepeat 1 ["/products/s8-sb30"; "/products/s8-sb33?variant=1"]
           ["/products/s8-sb30"; "/products/s8-sb33?variant=1"]).
  - vm_compute. apply list_elem_of_here.
  - vm_compute. apply list_elem_of_further, list_elem_of_here.
  - discriminate.
  - intros link. split; intros H; exact H.
Defined.

Lemma one_product_per_key_witness :
  dedup_key "https://www.jkcabinetry.com/products/s8-sb30" = "https:"
  ∧ size (catalog_of (trace (process_category example_urljoin repeating_site () ∅ sink_base)))
    ≤ 1.
Proof.
  destruct (one_product_per_key example_urljoin repeating_site () ∅ sink_base)
    as (_ & Hscheme & Hsize).
  split.
  - apply (Hscheme "www.jkcabinetry.com/products/s8-sb30"). reflexivity.
  - apply (Hsize "https:").
    + apply keys_forall. vm_compute. reflexivity.
    + exists []. reflexivity.
Defined.

Lemma first_writer_wins_witness :
  Product.image
  <$> catalog_of (trace (process_category example_urljoin two_scheme_site () ∅ sink_base))
      !! "https:"
  = Some "S8-SB30.jpg".
Proof.
  destruct (first_writer_wins example_urljoin two_scheme_site () ∅ sink_base)
    as (_ & Hstays & _).
  rewrite (Hstays
    (trace (process_style example_urljoin two_scheme_site sink_base (start ()) "s8"))
    (trace (process_category example_urljoin two_scheme_site () ∅ sink_base)) "https:"
    (Product.make "S8/SB30" "S8/SB30 Sink Base" (Some (Float "312.00")) "" "S8-SB30.jpg")).
  - reflexivity.
  - exists (take 13 (trace (process_category example_urljoin two_scheme_site () ∅ sink_base))).
    vm_compute. reflexivity.
  - exists []. reflexivity.
  - vm_compute. reflexivity.
Defined.

(** * Further properties of the code *)

(** ** Price, identifier and image name of a product *)

(** A repetition that ends the pattern takes the longest run. *)
Lemma rep_greedy P lo s :
  Re.rep P lo None s Some =
    if (lo <=? String.length (span P s).1)%nat then Some (span P s).2 else None.
Proof.
  revert lo. induction s as [|c s IH]; intros lo; simpl.
  - by destruct lo.
  - destruct (P c) eqn:Hc; simpl.
    + rewrite IH. destruct (span P s) as [a b]. simpl.
      destruct lo as [|lo]; simpl; [done|].
      by destruct (lo <=? String.length a)%nat.
    + by destruct lo.
Qed.

Lemma span_length P s :
  String.length s = String.length (span P s).1 + String.length (span P s).2.
Proof. by rewrite <- slength_app, span_app. Qed.

Lemma keep_app P s t : keep P (s +:+ t) = keep P s +:+ keep P t.
Proof.
  induction s as [|c s IH]; [done|]. simpl. rewrite IH. by destruct (P c).
Qed.

Lemma keep_none P s : Py.all (λ c, negb (P c)) s = true → keep P s = "".
Proof.
  induction s as [|c s IH]; [done|]. simpl.
  intros [Hc Hs]%andb_true_iff. apply negb_true_iff in Hc. rewrite Hc. by apply IH.
Qed.

Lemma keep_all P s : Py.all P (keep P s) = true.
Proof.
  induction s as [|c s IH]; [done|]. simpl.
  destruct (P c) eqn:Hc; [|done]. simpl. by rewrite Hc.
Qed.

(** Where the price pattern matches, it spans the longest run of
    characters that are neither digit nor dot. *)
Lemma not_price_match c t :
  Re.match_at not_price_chars (String c t) =
    if price_char c then None
    else Some (S (String.length (span (λ a, negb (price_char a)) t).1)).
Proof.
  unfold Re.match_at, not_price_chars, Re.plus. cbn [Re.exec].
  rewrite rep_greedy. cbn [span].
  change (Py.is_digit c || Ascii.eqb c ".") with (price_char c).
  destruct (price_char c); simpl; [done|].
  pose proof (span_length (λ a, negb (price_char a)) t) as Hlen.
  change (λ c0, negb (Py.is_digit c0 || Ascii.eqb c0 ".")) with (λ a, negb (price_char a)).
  destruct (span (λ a, negb (price_char a)) t) as [a b]. simpl in *. f_equal. lia.
Qed.

(** The cleaning of the price text keeps its digits and dots. *)
Lemma sub_not_price s : Re.sub not_price_chars "" s = keep price_char s.
Proof.
  unfold Re.sub. remember (String.length s) as n eqn:Hn. revert s Hn.
  induction n as [n IH] using lt_wf_ind. intros [|c t] Hn; [done|].
  cbn [Re.sub_go keep]. rewrite not_price_match.
  destruct (price_char c) eqn:Hc.
  - f_equal. apply (IH (String.length t)); [simpl in Hn; lia|done].
  - pose proof (span_app (λ a, negb (price_char a)) t) as Happ.
    pose proof (span_all (λ a, negb (price_char a)) t) as Hall.
    pose proof (span_length (λ a, negb (price_char a)) t) as Hlen.
    destruct (span (λ a, negb (price_char a)) t) as [a b]. simpl in *.
    rewrite sapp_nil_l, <- Happ, sub_go_skip, keep_app, keep_none by done.
    rewrite sapp_nil_l. apply (IH (String.length b)); [lia|done].
Qed.

Lemma all_dots_count s :
  Py.all price_char s = true →
  Py.all (Ascii.eqb ".") s = false ↔ ∃ c, Py.mem c s = true ∧ Py.is_digit c = true.
Proof.
  induction s as [|c s IH]; simpl.
  - intros _. split; [done|]. by intros (c & ? & _).
  - intros [Hc Hs]%andb_true_iff. specialize (IH Hs).
    destruct (Ascii.eqb_spec "." c) as [<-|Hdot]; simpl.
    + rewrite IH. split; intros (a & Ha & Hd); exists a; split; try done.
      * by rewrite Ha, orb_true_r.
      * apply orb_true_iff in Ha as [Ha|Ha]; [|done].
        apply Ascii.eqb_eq in Ha as <-. done.
    + split; [intros _|done]. exists c. rewrite Ascii.eqb_refl. split; [done|].
      unfold price_char in Hc. apply orb_true_iff in Hc as [Hc|Hc]; [done|].
      apply Ascii.eqb_eq in Hc. by subst c.
Qed.

(** X1. The price of a product is read off the digits and dots of the
    text of the price element, in order: it is that number when there
    is a digit and at most one dot, and absent otherwise, also when
    there is no price element. *)
Theorem price_from_digits_and_dots (pg : soup) :
  (price_text pg = Ret None → extract_price pg = Ret None)
  ∧ ∀ txt, price_text pg = Ret (Some txt) →
      let cleaned := keep price_char txt in
      (extract_price pg = Ret (Some (Float cleaned))
       ∧ (∃ c, Py.mem c cleaned = true ∧ Py.is_digit c = true) ∧ count "." cleaned ≤ 1)
      ∨ (extract_price pg = Ret None
         ∧ ((∀ c, Py.mem c cleaned = true → Py.is_digit c = false) ∨ 2 ≤ count "." cleaned)).
Proof.
  split.
  - intros H. by rewrite (extract_price_ret pg None).
  - intros txt H cleaned. rewrite (extract_price_ret pg (Some txt)) by done.
    unfold price_of. rewrite sub_not_price. fold cleaned.
    pose proof (keep_all price_char txt) as Hall. fold cleaned in Hall.
    pose proof (all_dots_count cleaned Hall) as Hdots.
    unfold float_of. change (λ c, Py.is_digit c || Ascii.eqb c ".") with price_char.
    rewrite Hall. simpl.
    destruct (Py.all (Ascii.eqb ".") cleaned) eqn:Hd; simpl.
    + right. split; [by destruct (Py.truthy cleaned)|]. left. intros c Hc.
      destruct (Py.is_digit c) eqn:Hdig; [|done].
      assert (true = false) as [=]. apply Hdots. by exists c.
    + destruct (count "." cleaned <=? 1)%nat eqn:Hcount.
      * left. apply Nat.leb_le in Hcount. split_and!; [|by apply Hdots|done].
        destruct cleaned; [done|]. done.
      * right. apply Nat.leb_gt in Hcount. split; [by destruct (Py.truthy cleaned)|].
        right. lia.
Qed.

Lemma alnum_not_slash c : Py.is_alnum c = true → Ascii.eqb "/" c = false.
Proof. intros Hc. apply Ascii.eqb_neq. intros <-. done. Qed.

(** What the identifier pattern matches: letters or digits, a slash,
    letters or digits, as many as there are. *)
Lemma product_id_match s rest :
  Re.exec product_id_pattern s Some = Some rest →
  ∃ a b, s = a +:+ String "/" (b +:+ rest) ∧ alnum_word a ∧ alnum_word b
         ∧ not_continued Py.is_alnum rest.
Proof.
  unfold product_id_pattern, Re.plus. cbn [Re.exec Re.chr].
  rewrite rep_maximal; last first.
  { intros c t Hc. by rewrite alnum_not_slash. }
  destruct (within _ _ _) eqn:Hw; [|done]. apply within_spec in Hw as [Hw _].
  pose proof (span_app Py.is_alnum s) as Happ. pose proof (span_all Py.is_alnum s) as Hall.
  destruct (span Py.is_alnum s) as [a t]. simpl in *.
  destruct t as [|c t]; [done|].
  destruct (Ascii.eqb_spec "/" c) as [<-|]; [|done].
  rewrite rep_greedy.
  pose proof (span_app Py.is_alnum t) as Happ2. pose proof (span_all Py.is_alnum t) as Hall2.
  pose proof (span_stops Py.is_alnum t) as Hstop.
  destruct (span Py.is_alnum t) as [b t']. simpl in *.
  destruct b as [|cb b]; [done|]. simpl.
  intros [= <-]. exists a, (String cb b). rewrite Happ2. split; [done|].
  split_and!; [split; [done|]|by split|done]. intros ->. simpl in Hw. lia.
Qed.

(** The pattern matches such a part, up to where the letters and
    digits after the slash end. *)
Lemma product_id_exec a b post :
  alnum_word a → alnum_word b → not_continued Py.is_alnum post →
  Re.exec product_id_pattern (a +:+ String "/" (b +:+ post)) Some = Some post.
Proof.
  intros [Ha Hane] [Hb Hbne] Hpost. unfold product_id_pattern, Re.plus.
  cbn [Re.exec Re.chr].
  rewrite rep_maximal; last first.
  { intros c t Hc. by rewrite alnum_not_slash. }
  rewrite (span_run Py.is_alnum a (String "/" (b +:+ post))) by done. simpl.
  assert (within 1 None (String.length a) = true) as ->.
  { apply within_spec. split; [|done]. destruct a; [done|]. simpl. lia. }
  rewrite rep_greedy.
  rewrite (span_run Py.is_alnum b post) by (by destruct post). simpl.
  destruct b; [done|]. done.
Qed.

Lemma starts_with_id_exec s :
  starts_with_id s ↔ is_Some (Re.exec product_id_pattern s Some).
Proof.
  split.
  - intros (a & b & rest & -> & Ha & [Hb Hbne]).
    pose proof (span_app Py.is_alnum rest) as Happ.
    pose proof (span_all Py.is_alnum rest) as Hall.
    pose proof (span_stops Py.is_alnum rest) as Hstop.
    destruct (span Py.is_alnum rest) as [r1 r2]. simpl in *. subst rest.
    exists r2.
    replace (a +:+ "/" +:+ b +:+ r1 +:+ r2) with (a +:+ String "/" ((b +:+ r1) +:+ r2))
      by (by str_norm).
    apply product_id_exec; [done| |by destruct r2].
    split; [by rewrite all_app, Hb, Hall|]. by destruct b.
  - intros [rest (a & b & -> & Ha & Hb & _)%product_id_match]. by exists a, b, rest.
Qed.

Lemma substring_app a b : String.substring 0 (String.length a) (a +:+ b) = a.
Proof.
  induction a as [|c a IH]; simpl.
  - by destruct b.
  - by rewrite IH.
Qed.

(** [re.search] returns a match of the pattern at some place of the
    text. *)
Lemma search_inv r s m :
  Re.search r s = Some m →
  ∃ pre s' rest, s = pre +:+ s' ∧ Re.exec r s' Some = Some rest
                 ∧ m = String.substring 0 (String.length s' - String.length rest) s'.
Proof.
  induction s as [|c s IH]; cbn [Re.search]; unfold Re.match_at.
  - destruct (Re.exec r "" Some) as [rest|] eqn:Hex; simpl; [|done].
    intros [= <-]. by exists "", "", rest.
  - destruct (Re.exec r (String c s) Some) as [rest|] eqn:Hex; cbn [fmap option_fmap option_map].
    + intros [= <-]. by exists "", (String c s), rest.
    + intros (pre & s' & rest & -> & Hex' & ->)%IH. by exists (String c pre), s', rest.
Qed.

Lemma search_none r s :
  (∀ pre s', s = pre +:+ s' → Re.exec r s' Some = None) → Re.search r s = None.
Proof.
  induction s as [|c s IH]; intros Hno; cbn [Re.search]; unfold Re.match_at.
  - by rewrite (Hno "" "" eq_refl).
  - rewrite (Hno "" (String c s) eq_refl). simpl. apply IH.
    intros pre s' ->. by apply (Hno (String c pre)).
Qed.

(** [re.search] returns the match at the first place where the
    pattern matches. *)
Lemma search_first r pre s rest :
  (∀ p1 p2, pre = p1 +:+ p2 → p2 ≠ "" → Re.exec r (p2 +:+ s) Some = None) →
  Re.exec r s Some = Some rest →
  Re.search r (pre +:+ s)
  = Some (String.substring 0 (String.length s - String.length rest) s).
Proof.
  intros Hno Hex. induction pre as [|c pre IH].
  - rewrite sapp_nil_l. destruct s as [|c s]; cbn [Re.search]; unfold Re.match_at;
      by rewrite Hex.
  - rewrite sapp_cons. cbn [Re.search]. unfold Re.match_at.
    rewrite <- sapp_cons, (Hno "" (String c pre)) by done. simpl. apply IH.
    intros p1 p2 -> Hp2. by apply (Hno (String c p1)).
Qed.

Lemma search_inv_first r s m :
  Re.search r s = Some m →
  ∃ pre s' rest,
    s = pre +:+ s' ∧ Re.exec r s' Some = Some rest
    ∧ m = String.substring 0 (String.length s' - String.length rest) s'
    ∧ ∀ p1 p2, pre = p1 +:+ p2 → p2 ≠ "" → Re.exec r (p2 +:+ s') Some = None.
Proof.
  induction s as [|c s IH]; cbn [Re.search]; unfold Re.match_at.
  - destruct (Re.exec r "" Some) as [rest|] eqn:Hex; simpl; [|done].
    intros [= <-]. exists "", "", rest. split_and!; [done..|].
    intros [|? ?] [|? ?]; done.
  - destruct (Re.exec r (String c s) Some) as [rest|] eqn:Hex; cbn [fmap option_fmap option_map].
    + intros [= <-]. exists "", (String c s), rest. split_and!; [done..|].
      intros [|? ?] [|? ?]; done.
    + intros (pre & s' & rest & -> & Hex' & -> & Hno)%IH.
      exists (String c pre), s', rest. split_and!; [done..|].
      intros [|c1 p1] p2 Heq Hp2.
      * rewrite sapp_nil_l in Heq. by subst p2.
      * rewrite sapp_cons in Heq. injection Heq as -> ->. by apply (Hno p1).
Qed.

Lemma search_None_inv r s :
  Re.search r s = None → ∀ pre s', s = pre +:+ s' → Re.exec r s' Some = None.
Proof.
  induction s as [|c s IH]; cbn [Re.search]; intros Hsearch pre s' Heq.
  - destruct pre, s'; try done. apply match_at_None.
    by destruct (Re.match_at r "").
  - destruct (Re.match_at r (String c s)) eqn:Hm; [done|].
    destruct pre as [|c' pre].
    + rewrite sapp_nil_l in Heq. subst s'. by apply match_at_None.
    + rewrite sapp_cons in Heq. injection Heq as -> ->. by eapply IH.
Qed.

Lemma match_length a b post :
  String.substring 0
    (String.length (a +:+ String "/" (b +:+ post)) - String.length post)
    (a +:+ String "/" (b +:+ post))
  = a +:+ "/" +:+ b.
Proof.
  replace (a +:+ String "/" (b +:+ post)) with ((a +:+ String "/" b) +:+ post)
    by (by str_norm).
  rewrite slength_app.
  replace (String.length (a +:+ String "/" b) + String.length post - String.length post)
    with (String.length (a +:+ String "/" b)) by lia.
  by rewrite substring_app.
Qed.

(** X2. The identifier of a product is the first part of its title
    that is made of letters or digits, a slash, and letters or digits,
    taken as long as it goes; it is the whole title when the title has
    no such part, in particular when it has no slash.  First: no such
    part begins earlier in the title; as long as it goes: no letter or
    digit follows it. *)
Theorem product_id_from_title (title : string) :
  let product_id := default title (Re.search product_id_pattern title) in
  (Py.mem "/" title = false → product_id = title)
  ∧ ((∀ pre s, title = pre +:+ s → ¬ starts_with_id s) → product_id = title)
  ∧ (∀ pre a b post,
       title = pre +:+ a +:+ "/" +:+ b +:+ post →
       alnum_word a → alnum_word b → not_continued Py.is_alnum post →
       none_earlier pre (a +:+ "/" +:+ b +:+ post) →
       product_id = a +:+ "/" +:+ b)
  ∧ ((∀ pre s, title = pre +:+ s → ¬ starts_with_id s)
     ∨ ∃ pre a b post,
         title = pre +:+ a +:+ "/" +:+ b +:+ post
         ∧ alnum_word a ∧ alnum_word b ∧ not_continued Py.is_alnum post
         ∧ none_earlier pre (a +:+ "/" +:+ b +:+ post)).
Proof.
  intros product_id. subst product_id.
  assert ((∀ pre s, title = pre +:+ s → ¬ starts_with_id s) →
          Re.search product_id_pattern title = None) as Hnone.
  { intros Hno. apply search_none. intros pre s' ->.
    destruct (Re.exec _ _ _) as [rest|] eqn:Hex; [|done].
    destruct (Hno pre s' eq_refl). apply starts_with_id_exec. by rewrite Hex. }
  split_and!.
  - intros Hslash. rewrite Hnone; [done|]. intros pre s -> (a & b & rest & -> & _).
    rewrite !mem_app in Hslash. cbn [Py.mem] in Hslash.
    rewrite Ascii.eqb_refl in Hslash. simpl in Hslash. by rewrite !orb_true_r in Hslash.
  - intros Hno. by rewrite Hnone.
  - intros pre a b post -> Ha Hb Hpost Hfirst.
    replace (pre +:+ a +:+ "/" +:+ b +:+ post)
      with (pre +:+ (a +:+ String "/" (b +:+ post))) by (by str_norm).
    rewrite (search_first _ pre _ post).
    + simpl. apply match_length.
    + intros p1 p2 Hpre Hp2.
      destruct (Re.exec _ _ _) as [rest|] eqn:Hex; [|done].
      destruct (Hfirst p1 p2 Hpre Hp2). apply starts_with_id_exec.
      replace (p2 +:+ a +:+ "/" +:+ b +:+ post)
        with (p2 +:+ a +:+ String "/" (b +:+ post)) by (by str_norm).
      by rewrite Hex.
    + by apply product_id_exec.
  - destruct (Re.search product_id_pattern title) as [m|] eqn:Hsearch.
    + right. apply search_inv_first in Hsearch as (pre & s' & rest & -> & Hex & _ & Hno).
      apply product_id_match in Hex as (a & b & -> & Ha & Hb & Hrest).
      exists pre, a, b, rest. split_and!; [by str_norm|done..|].
      intros p1 p2 Hpre Hp2 Hid. apply starts_with_id_exec in Hid as [x Hx].
      replace (p2 +:+ a +:+ "/" +:+ b +:+ rest)
        with (p2 +:+ a +:+ String "/" (b +:+ rest)) in Hx by (by str_norm).
      by rewrite (Hno p1 p2 Hpre Hp2) in Hx.
    + left. intros pre s -> Hid. apply starts_with_id_exec in Hid as [x Hx].
      by rewrite (search_None_inv _ _ Hsearch pre s eq_refl) in Hx.
Qed.

(** Deleting matches keeps what holds of every character. *)
Lemma sub_go_delete_all P r skip s :
  Py.all P s = true → Py.all P (Re.sub_go r "" skip s) = true.
Proof.
  revert skip. induction s as [|c s IH]; intros skip; [done|]. cbn [Py.all Re.sub_go].
  intros [Hc Hs]%andb_true_iff. destruct skip as [|skip]; [|by apply IH].
  destruct (Re.match_at r (String c s)) as [[|n]|]; cbn [Py.all];
    rewrite ?sapp_nil_l, ?Hc; by apply IH.
Qed.

(** What a result of the parser is made of. *)
Lemma product_of_page_inv page product url :
  product_of_page page = Some (product, url) →
  ∃ image_url,
    image_url ≠ ""
    ∧ url = strip_resolution_suffix image_url
    ∧ Product.image product
      = Re.sub resolution_suffix "" (sanitize_filename (strip_resolution_suffix image_url))
    ∧ Product.id product
      = default (Product.name product) (Re.search product_id_pattern (Product.name product)).
Proof.
  destruct page as [pg|]; [|done]. unfold product_of_page, extract_product.
  destruct (h1_text pg) as [title|]; [|done]. simpl.
  destruct (extract_price pg) as [price|]; [|done]. simpl.
  destruct (extract_description pg) as [desc|]; [|done]. simpl.
  destruct (extract_image_url pg) as [image_url|]; [|done]. simpl.
  destruct image_url as [|c image_url]; [done|]. simpl.
  intros [= <- <-]. by exists (String c image_url).
Qed.

(** X3. The image name of every product that the parser returns is
    made of the characters [[A-Za-z0-9_.-]] only: it has no directory
    separator and no query, whatever the image reference of the page. *)
Theorem product_image_name_safe page product url :
  product_of_page page = Some (product, url) →
  Py.all filename_char (Product.image product) = true
  ∧ Py.mem "/" (Product.image product) = false
  ∧ Py.mem "?" (Product.image product) = false.
Proof.
  intros (image_url & _ & _ & -> & _)%product_of_page_inv.
  assert (Py.all filename_char
    (Re.sub resolution_suffix "" (sanitize_filename (strip_resolution_suffix image_url)))
    = true) as Hall.
  { apply sub_go_delete_all, sanitize_filename_safe. }
  split_and!; [done|by apply (all_not_mem filename_char)..].
Qed.

(** ** Further properties of the crawl *)

Section CrawlFacts.
Context {W : Type}.
Variable urljoin : string → string → string.
Variable session_get : W → string → W * exn response.

#[local] Abbreviation absolute := (absolute urljoin).
#[local] Abbreviation filter_new := (filter_new urljoin).
#[local] Abbreviation get_soup := (get_soup session_get).
#[local] Abbreviation parse_collection_page := (parse_collection_page session_get).
#[local] Abbreviation parse_product_page := (parse_product_page urljoin session_get).
#[local] Abbreviation download_image := (download_image session_get).
#[local] Abbreviation visit := (visit urljoin session_get).
#[local] Abbreviation page_turn := (page_turn urljoin session_get).
#[local] Abbreviation paginate := (paginate urljoin session_get).
#[local] Abbreviation process_style := (process_style urljoin session_get).
#[local] Abbreviation process_category := (process_category urljoin session_get).
#[local] Abbreviation style_pages := (style_pages urljoin session_get).

(** What is kept by every visit of a product link and by every fetch of
    a listing page is kept by the crawl of a category. *)
Lemma crawl_invariant (Inv : @crawl W → Prop) cat :
  (∀ st url, Inv st → Inv (visit (path_join "output" (cat_id cat)) st url)) →
  (∀ st w page url links,
     Inv st → Inv {| world := w; files := files st; collected := collected st;
                     trace := Listing page url links :: trace st |}) →
  ∀ w fs, Inv {| world := w; files := fs; collected := ∅; trace := [] |} →
          Inv (process_category w fs cat).
Proof.
  intros Hvisit Hlisting w fs Hstart.
  assert (∀ urls st, Inv st → Inv (foldl (visit (path_join "output" (cat_id cat))) st urls))
    as Hvisits.
  { induction urls as [|url urls IH]; intros st Hst; simpl; [done|]. by apply IH, Hvisit. }
  assert (∀ base page seen st, Inv st →
    Inv (after (page_turn (path_join "output" (cat_id cat)) base page seen st))) as Hturn.
  { intros base page seen st Hst.
    pose proof (page_turn_cases urljoin session_get (path_join "output" (cat_id cat))
                  base page seen st) as Hcases. simpl in Hcases.
    destruct (page_turn _ _ _ _ _) as [st'|seen' st']; simpl.
    - destruct Hcases as [_ ->]. by apply Hlisting.
    - destruct Hcases as (_ & _ & _ & urls & -> & _). by apply Hvisits, Hlisting. }
  assert (∀ fuel base page seen st, Inv st →
    Inv (paginate fuel (path_join "output" (cat_id cat)) base page seen st)) as Hloop.
  { induction fuel as [|fuel IH]; intros base page seen st Hst; simpl; [done|].
    case_decide; [|done]. specialize (Hturn base page seen st Hst).
    destruct (page_turn _ _ _ _ _) as [st'|seen' st']; simpl in Hturn; [done|].
    by apply IH. }
  unfold process_category. generalize STYLE_CODES. intros styles.
  revert Hstart. generalize {| world := w; files := fs; collected := ∅; trace := [] |}.
  induction styles as [|style styles IH]; intros st Hst; simpl; [done|].
  apply IH. unfold process_style. by apply Hloop.
Qed.

Lemma paginate_S fuel category_folder base page seen (st : crawl) :
  paginate (S fuel) category_folder base page seen st
  = if decide (page ≤ max_pages) then
      match page_turn category_folder base page seen st with
      | Break st => st
      | NextPage seen_links st => paginate fuel category_folder base (page + 1) seen_links st
      end
    else st.
Proof. done. Qed.

Lemma get_soup_failed w url :
  failed (session_get w url).2 → get_soup w url = ((session_get w url).1, None).
Proof.
  unfold get_soup. destruct (session_get w url) as [w' [resp|]]; simpl; [|done].
  intros Hstatus. by case_decide.
Qed.

(** X4. A listing page that cannot be fetched, because the request
    raises or its status is not 200, counts as a page without links and
    ends the pagination of the style: nothing but the request happens.
    In particular a style whose first page fails costs one request. *)
Theorem failed_listing_ends_style cat (st : crawl) style :
  (∀ category_folder base page seen,
     let url := if decide (page = 1) then base else base +:+ "?page=" +:+ pretty page in
     failed (session_get (world st) url).2 →
     page_turn category_folder base page seen st
     = Break {| world := (session_get (world st) url).1; files := files st;
                collected := collected st; trace := Listing page url [] :: trace st |})
  ∧ (let url := BASE_URL +:+ "/collections/" +:+ style +:+ "-" +:+ cat_slug cat in
     failed (session_get (world st) url).2 →
     process_style cat st style
     = {| world := (session_get (world st) url).1; files := files st;
          collected := collected st; trace := Listing 1 url [] :: trace st |}).
Proof.
  assert (∀ category_folder base page seen,
     let url := if decide (page = 1) then base else base +:+ "?page=" +:+ pretty page in
     failed (session_get (world st) url).2 →
     page_turn category_folder base page seen st
     = Break {| world := (session_get (world st) url).1; files := files st;
                collected := collected st; trace := Listing page url [] :: trace st |})
    as Hturn.
  { intros category_folder base page seen url Hfail. unfold page_turn. fold url.
    unfold parse_collection_page. by rewrite get_soup_failed. }
  split; [done|]. intros url Hfail. unfold process_style. fold url.
  rewrite (paginate_S 19). case_decide as Hle; [|unfold max_pages in Hle; lia].
  pose proof (Hturn (path_join "output" (cat_id cat)) url 1 ∅) as H1. simpl in H1.
  by rewrite H1.
Qed.

(** X6. A product page that cannot be fetched is skipped: the catalog
    and the files stay as they are. *)
Theorem failed_product_page_skipped category_folder (st : crawl) url :
  let product_url := if Py.startswith "http" url then url else urljoin BASE_URL url in
  collected st !! dedup_key url = None →
  failed (session_get (world st) product_url).2 →
  visit category_folder st url
  = {| world := (session_get (world st) product_url).1; files := files st;
       collected := collected st; trace := Detail url false :: trace st |}.
Proof.
  intros product_url Hkey Hfail. unfold visit. rewrite Hkey.
  unfold parse_product_page. fold product_url. by rewrite get_soup_failed.
Qed.

(** X5. An image is downloaded exactly when the product has an image
    name and no file of that name is in the category folder; in both
    cases the product is put into the catalog. *)
Theorem download_only_missing_files category_folder (st : crawl) url w product img_url :
  let key := dedup_key url in
  let dest := path_join category_folder (Product.image product) in
  collected st !! key = None →
  parse_product_page (world st) url = (w, Some (product, img_url)) →
  (Product.image product = "" ∨ dest ∈ files st →
     visit category_folder st url
     = {| world := w; files := files st; collected := <[key := product]> (collected st);
          trace := Put key product :: Detail url true :: trace st |})
  ∧ (Product.image product ≠ "" → dest ∉ files st →
       visit category_folder st url
       = {| world := (download_image w (files st) img_url dest).1.1;
            files := (download_image w (files st) img_url dest).1.2;
            collected := <[key := product]> (collected st);
            trace := Put key product
                     :: Download img_url dest (download_image w (files st) img_url dest).2
                     :: Detail url true :: trace st |}).
Proof.
  intros key dest Hkey Hparse. unfold visit. fold key. rewrite Hkey, Hparse. fold dest.
  split.
  - intros [Hname | Hdest].
    + by rewrite Hname.
    + rewrite (bool_decide_eq_true_2 _ Hdest). simpl. by rewrite andb_false_r.
  - intros Hname Hdest. rewrite (bool_decide_eq_false_2 _ Hdest).
    rewrite truthy_ne by done. simpl.
    by destruct (download_image w (files st) img_url dest) as [[w' fs] ok].
Qed.

Lemma download_image_files w fs url dest :
  (download_image w fs url dest).1.2
  = if (download_image w fs url dest).2 then {[dest]} ∪ fs else fs.
Proof.
  unfold download_image. destruct (session_get w url) as [w' [resp|]]; [|done].
  by destruct (http_error _).
Qed.

Lemma parse_product_page_inv w url w' product img_url :
  parse_product_page w url = (w', Some (product, img_url)) →
  ∃ page, product_of_page page = Some (product, img_url).
Proof.
  unfold parse_product_page. destruct (get_soup _ _) as [w'' page].
  intros [= _ Hpage]. by exists page.
Qed.

(** The ways in which the visit of a link ends. *)
Lemma visit_shapes category_folder (st : crawl) url :
  let key := dedup_key url in
  visit category_folder st url = st
  ∨ (∃ w, collected st !! key = None
          ∧ visit category_folder st url
            = {| world := w; files := files st; collected := collected st;
                 trace := Detail url false :: trace st |})
  ∨ (∃ w product img_url,
       collected st !! key = None
       ∧ parse_product_page (world st) url = (w, Some (product, img_url))
       ∧ let dest := path_join category_folder (Product.image product) in
         (visit category_folder st url
          = {| world := w; files := files st; collected := <[key := product]> (collected st);
               trace := Put key product :: Detail url true :: trace st |}
          ∨ (Product.image product ≠ "" ∧ (dest ∉ files st)
             ∧ ∃ w' (ok : bool),
                 visit category_folder st url
                 = {| world := w'; files := if ok then {[dest]} ∪ files st else files st;
                      collected := <[key := product]> (collected st);
                      trace := Put key product :: Download img_url dest ok
                               :: Detail url true :: trace st |}))).
Proof.
  intros key. unfold visit. fold key. destruct (collected st !! key) eqn:Hkey; [by left|].
  right. destruct (parse_product_page (world st) url) as [w [[product img_url]|]] eqn:Hparse.
  2:{ left. by exists w. }
  right. exists w, product, img_url. split; [done|]. split; [done|]. simpl.
  destruct (Py.truthy (Product.image product)) eqn:Hname; simpl; [|by left].
  case_bool_decide as Hdest; simpl; [by left|]. right.
  split; [by destruct (Product.image product)|]. split; [done|].
  pose proof (download_image_files w (files st) img_url
                (path_join category_folder (Product.image product))) as Hfiles.
  destruct (download_image _ _ _ _) as [[w' fs] ok]. simpl in Hfiles. subst fs.
  by exists w', ok.
Qed.

Lemma download_image_grows w fs url dest : fs ⊆ (download_image w fs url dest).1.2.
Proof. rewrite download_image_files. destruct (download_image _ _ _ _).2; set_solver. Qed.

(** X7. The crawl of a category spares the files that exist when it
    starts, the category folder having been made: every download that
    it attempts is for a path that did not exist then, namely the
    category folder joined with the image name of the product that is
    put into the catalog next; that name is not empty, is neither [.]
    nor [..], and is made of the characters [[A-Za-z0-9_.-]], so that
    the file is an entry of the folder itself. *)
Theorem downloads_spare_existing_files w fs cat url dest ok :
  let run := process_category w fs cat in
  let folder := path_join "output" (cat_id cat) in
  folder_exists folder fs →
  Download url dest ok ∈ trace run →
  (dest ∉ fs)
  ∧ ∃ key product t,
      Put key product :: Download url dest ok :: t `suffix_of` trace run
      ∧ dest = path_join folder (Product.image product)
      ∧ Product.image product ≠ "" ∧ Product.image product ≠ "."
      ∧ Product.image product ≠ ".."
      ∧ Py.all filename_char (Product.image product) = true.
Proof.
  intros run folder [Hdot Hdots]. subst run. revert url dest ok.
  assert (fs ⊆ files (process_category w fs cat)
          ∧ ∀ url dest ok, Download url dest ok ∈ trace (process_category w fs cat) →
              (dest ∉ fs)
              ∧ ∃ key product t,
                  Put key product :: Download url dest ok :: t
                    `suffix_of` trace (process_category w fs cat)
                  ∧ dest = path_join folder (Product.image product)
                  ∧ Product.image product ≠ "" ∧ Product.image product ≠ "."
                  ∧ Product.image product ≠ ".."
                  ∧ Py.all filename_char (Product.image product) = true) as [_ H]; [|done].
  apply (crawl_invariant
    (λ st, fs ⊆ files st
           ∧ ∀ url dest ok, Download url dest ok ∈ trace st →
               (dest ∉ fs)
               ∧ ∃ key product t,
                   Put key product :: Download url dest ok :: t `suffix_of` trace st
                   ∧ dest = path_join folder (Product.image product)
                   ∧ Product.image product ≠ "" ∧ Product.image product ≠ "."
                   ∧ Product.image product ≠ ".."
                   ∧ Py.all filename_char (Product.image product) = true)).
  - intros st url [Hfiles Hdown].
    assert (∀ evs u d o, Download u d o ∈ trace st →
      (d ∉ fs)
      ∧ ∃ key product t,
          Put key product :: Download u d o :: t `suffix_of` evs ++ trace st
          ∧ d = path_join folder (Product.image product)
          ∧ Product.image product ≠ "" ∧ Product.image product ≠ "."
          ∧ Product.image product ≠ ".."
          ∧ Py.all filename_char (Product.image product) = true) as Hold.
    { intros evs u d o (Hd & key & product & t & Hsuf & Hrest)%Hdown. split; [done|].
      exists key, product, t. split; [|done]. by apply suffix_app_r. }
    destruct (visit_shapes (path_join "output" (cat_id cat)) st url)
      as [-> | [(w' & _ & ->) | (w' & product & img_url & _ & Hparse & Hshape)]]; simpl.
    + done.
    + split; [done|]. intros u d o [[=]|Hin]%elem_of_cons.
      by apply (Hold [Detail url false]).
    + destruct Hshape as [-> | (Hname & Hdest & w'' & o' & ->)]; simpl.
      * split; [done|]. intros u d o [[=]|[[=]|Hin]%elem_of_cons]%elem_of_cons.
        by apply (Hold [Put (dedup_key url) product; Detail url true]).
      * split; [destruct o'; set_solver|].
        intros u d o Hin. rewrite !elem_of_cons in Hin.
        destruct Hin as [Heq|[Heq|[Heq|Hin]]]; try discriminate.
        2:{ by apply (Hold [Put (dedup_key url) product; Download _ _ _; Detail url true]). }
        injection Heq as -> -> ->.
        assert (path_join (path_join "output" (cat_id cat)) (Product.image product) ∉ fs)
          as Hfs by set_solver.
        split; [done|].
        exists (dedup_key url), product, (Detail url true :: trace st).
        split_and!; [done..| | |].
        -- intros Himage. rewrite Himage in Hfs. done.
        -- intros Himage. rewrite Himage in Hfs. done.
        -- apply parse_product_page_inv in Hparse as [page Hpage].
           apply product_of_page_inv in Hpage as (image_url & _ & _ & -> & _).
           apply sub_go_delete_all, sanitize_filename_safe.
  - intros st w' page u links [Hfiles Hdown]. simpl. split; [done|].
    intros u' d o [[=]|Hin]%elem_of_cons.
    destruct (Hdown _ _ _ Hin) as (Hd & key & product & t & Hsuf & Hrest). split; [done|].
    exists key, product, t. split; [|done]. by apply suffix_cons_r.
  - simpl. split; [done|]. by intros u d o ?%elem_of_nil.
Qed.

Lemma details_fresh_suffix t1 t2 : t1 `suffix_of` t2 → details_fresh t2 → details_fresh t1.
Proof.
  intros [evs ->]. induction evs as [|e evs IH]; [done|].
  destruct e; simpl; naive_solver.
Qed.

(** X8. A product page is fetched only for a key that the catalog does
    not have, and every page that gives a result adds one product: the
    catalog has as many products as product pages were parsed. *)
Theorem one_product_per_parsed_page w fs cat :
  let run := process_category w fs cat in
  size (collected run) = parsed (trace run)
  ∧ ∀ url found t,
      Detail url found :: t `suffix_of` trace run → catalog_of t !! dedup_key url = None.
Proof.
  intros run.
  assert (sound run ∧ size (collected run) = parsed (trace run)
          ∧ details_fresh (trace run)) as (_ & Hsize & Hfresh).
  { apply (crawl_invariant
      (λ st, sound st ∧ size (collected st) = parsed (trace st) ∧ details_fresh (trace st))).
    - intros st url (Hsound & Hsize & Hfresh).
      split; [by apply visit_sound|]. destruct Hsound as [Hcat _].
      destruct (visit_shapes (path_join "output" (cat_id cat)) st url)
        as [-> | [(w' & Hkey & ->) | (w' & product & img_url & Hkey & _ & Hshape)]]; simpl.
      + done.
      + split; [done|]. split; [by rewrite <- Hcat|done].
      + destruct Hshape as [-> | (_ & _ & w'' & ok & ->)]; simpl;
          (rewrite map_size_insert_None by done; split; [by rewrite Hsize|]);
          (split; [by rewrite <- Hcat|done]).
    - intros st w' page url links ([Hcat Hputs] & Hsize & Hfresh). simpl.
      split; [by split|done].
    - simpl. split; [by split|]. split; [by rewrite map_size_empty|done]. }
  split; [done|]. intros url found t Hsuffix.
  by destruct (details_fresh_suffix _ _ Hsuffix Hfresh) as [? _].
Qed.

Lemma listings_app evs t : listings (evs ++ t) = listings t ++ listings evs.
Proof.
  induction evs as [|e evs IH]; simpl; [by rewrite app_nil_r|].
  destruct e; rewrite IH; by rewrite ?app_assoc.
Qed.

Lemma styles_listings cat styles (st : crawl) :
  length (listings (trace st)) ≤ length (listings (trace (foldl (process_style cat) st styles)))
  ∧ length (listings (trace (foldl (process_style cat) st styles)))
    - length (listings (trace st)) ≤ length styles * max_pages.
Proof.
  revert st. induction styles as [|style styles IH]; intros st; simpl; [lia|].
  destruct (IH (process_style cat st style)) as (Hle & Hhi).
  destruct (process_style_invariant urljoin session_get cat st style)
    as (_ & _ & _ & Hlist & Hrun).
  apply page_run_length in Hrun.
  rewrite Hlist, length_app in Hle, Hhi. unfold max_pages in *. lia.
Qed.

(** A visit fetches no listing page. *)
Lemma visit_no_listing category_folder (st : crawl) url page from links :
  Listing page from links ∈ trace (visit category_folder st url) →
  Listing page from links ∈ trace st.
Proof.
  destruct (visit_cases urljoin session_get category_folder st url)
    as (evs & Hq & [[_ ->] | (_ & p & _ & ->)]).
  - intros [Hin|Hin]%elem_of_app; [|done].
    eapply Forall_forall in Hq; [|done]. done.
  - intros [[=]|[Hin|Hin]%elem_of_app]%elem_of_cons; [|done].
    eapply Forall_forall in Hq; [|done]. done.
Qed.

(** What is kept by every visit, and by every fetch of a page of the
    collection of a style at a page number from 1 to [max_pages], is
    kept by the crawl of a category. *)
Lemma crawl_invariant_pages (Inv : @crawl W → Prop) cat :
  (∀ st url, Inv st → Inv (visit (path_join "output" (cat_id cat)) st url)) →
  (∀ st w style page links,
     Inv st → style ∈ STYLE_CODES → 1 ≤ page ≤ max_pages →
     Inv {| world := w; files := files st; collected := collected st;
            trace := Listing page (listing_url cat style page) links :: trace st |}) →
  ∀ w fs, Inv {| world := w; files := fs; collected := ∅; trace := [] |} →
          Inv (process_category w fs cat).
Proof.
  intros Hvisit Hlisting w fs Hstart.
  assert (∀ urls st, Inv st → Inv (foldl (visit (path_join "output" (cat_id cat))) st urls))
    as Hvisits.
  { induction urls as [|url urls IH]; intros st Hst; simpl; [done|]. by apply IH, Hvisit. }
  assert (∀ style page seen st,
    style ∈ STYLE_CODES → 1 ≤ page ≤ max_pages → Inv st →
    Inv (after (page_turn (path_join "output" (cat_id cat))
                  (BASE_URL +:+ "/collections/" +:+ style +:+ "-" +:+ cat_slug cat)
                  page seen st))) as Hturn.
  { intros style page seen st Hstyle Hpage Hst.
    pose proof (page_turn_cases urljoin session_get (path_join "output" (cat_id cat))
                  (BASE_URL +:+ "/collections/" +:+ style +:+ "-" +:+ cat_slug cat)
                  page seen st) as Hcases. simpl in Hcases.
    destruct (page_turn _ _ _ _ _) as [st'|seen' st']; simpl.
    - destruct Hcases as [_ ->]. by apply (Hlisting st _ style page).
    - destruct Hcases as (_ & _ & _ & urls & -> & _).
      by apply Hvisits, (Hlisting st _ style page). }
  assert (∀ fuel style page seen st,
    style ∈ STYLE_CODES → 1 ≤ page → Inv st →
    Inv (paginate fuel (path_join "output" (cat_id cat))
           (BASE_URL +:+ "/collections/" +:+ style +:+ "-" +:+ cat_slug cat)
           page seen st)) as Hloop.
  { induction fuel as [|fuel IH]; intros style page seen st Hstyle Hpage Hst; simpl; [done|].
    case_decide as Hmax; [|done].
    specialize (Hturn style page seen st Hstyle (conj Hpage Hmax) Hst).
    destruct (page_turn _ _ _ _ _) as [st'|seen' st']; simpl in Hturn; [done|].
    apply IH; [done|lia|done]. }
  unfold process_category.
  assert (∀ styles st, styles ⊆ STYLE_CODES → Inv st → Inv (foldl (process_style cat) st styles))
    as Hstyles.
  { induction styles as [|style styles IH]; intros st Hsub Hst; simpl; [done|].
    apply IH; [set_solver|]. unfold process_style. apply Hloop; [set_solver|lia|done]. }
  by apply Hstyles.
Qed.

(** X9. The listing pages that the crawl of a category requests are
    pages 1 to [max_pages] of the collections of the 14 styles for that
    category, page 1 by the URL of the collection and page [n] by that
    URL with [?page=n]; there are 280 requests at most, whatever the
    site answers. *)
Theorem listing_requests_bounded w fs cat :
  length (listings (trace (process_category w fs cat))) ≤ length STYLE_CODES * max_pages
  ∧ length STYLE_CODES * max_pages = 280
  ∧ ∀ page url links,
      Listing page url links ∈ trace (process_category w fs cat) →
      1 ≤ page ≤ max_pages
      ∧ ∃ style, style ∈ STYLE_CODES ∧ url = listing_url cat style page.
Proof.
  split_and!.
  - unfold process_category.
    destruct (styles_listings cat STYLE_CODES
                {| world := w; files := fs; collected := ∅; trace := [] |}) as (_ & Hhi).
    simpl in Hhi. by rewrite Nat.sub_0_r in Hhi.
  - done.
  - apply (crawl_invariant_pages
      (λ st, ∀ page url links, Listing page url links ∈ trace st →
               1 ≤ page ≤ max_pages
               ∧ ∃ style, style ∈ STYLE_CODES ∧ url = listing_url cat style page)).
    + intros st url Hst page from links Hin%visit_no_listing. by apply (Hst _ _ links).
    + intros st w' style page links Hst Hstyle Hpage p u l [[= -> -> ->]|Hin]%elem_of_cons.
      * split; [done|]. by exists style.
      * by apply (Hst _ _ l).
    + simpl. by intros page url links ?%elem_of_nil.
Qed.

(** The links kept of a page have new keys, each once. *)
Lemma filter_new_distinct links seen acc :
  NoDup (dedup_key <$> acc) → (∀ url, url ∈ acc → dedup_key url ∈ seen) →
  NoDup (dedup_key <$> (filter_new links seen acc).2)
  ∧ ∀ url, url ∈ (filter_new links seen acc).2 →
      url ∈ acc ∨ ((dedup_key url ∉ seen) ∧ ∃ link, link ∈ links ∧ url = absolute link).
Proof.
  revert seen acc. induction links as [|link links IH]; intros seen acc Hnodup Hacc; simpl.
  { split; [done|]. by left. }
  case_decide as Hkey.
  - destruct (IH seen acc Hnodup Hacc) as [Hnd Hin]. split; [done|].
    intros url [?|(? & l & ? & ->)]%Hin; [by left|right]. split; [done|].
    exists l. set_solver.
  - destruct (IH ({[dedup_key (absolute link)]} ∪ seen) (acc ++ [absolute link]))
      as [Hnd Hin].
    + rewrite fmap_app. apply NoDup_app. split_and!; [done| |apply NoDup_singleton].
      intros key [url [-> Hurl]]%list_elem_of_fmap [Heq|[]%elem_of_nil]%elem_of_cons.
      apply Hkey. rewrite <- Heq. by apply Hacc.
    + intros url [Hurl|[->|[]%elem_of_nil]%elem_of_cons]%elem_of_app; [|set_solver].
      apply elem_of_union. right. by apply Hacc.
    + split; [done|].
      intros url [[?|[->|[]%elem_of_nil]%elem_of_cons]%elem_of_app|(Hnew & l & ? & ->)]%Hin.
      * by left.
      * right. split; [done|]. exists link. set_solver.
      * right. split; [set_solver|]. exists l. set_solver.
Qed.

(** The loop over the links of a page, link by link. *)
Lemma filter_new_app l1 l2 seen acc :
  filter_new (l1 ++ l2) seen acc
  = filter_new l2 (filter_new l1 seen acc).1 (filter_new l1 seen acc).2.
Proof.
  revert seen acc. induction l1 as [|link l1 IH]; intros seen acc; simpl; [done|].
  case_decide; by rewrite IH.
Qed.

Lemma filter_new_acc links seen acc :
  (filter_new links seen acc).2 = acc ++ (filter_new links seen []).2.
Proof.
  revert seen acc. induction links as [|link links IH]; intros seen acc; simpl.
  - by rewrite app_nil_r.
  - case_decide; [done|].
    rewrite (IH _ (acc ++ [absolute link])), (IH _ [absolute link]).
    by rewrite <- app_assoc.
Qed.

Lemma filter_new_seen links seen acc :
  (filter_new links seen acc).1 = seen ∪ keys_of urljoin links.
Proof. by destruct (filter_new_spec urljoin links seen acc) as [? _]. Qed.

(** A link is new when its key is neither seen nor the key of a link
    before it on the page. *)
Lemma filter_new_first links seen url :
  url ∈ (filter_new links seen []).2 →
  ∃ pre link post, links = pre ++ link :: post ∧ url = absolute link
                   ∧ dedup_key url ∉ seen ∪ keys_of urljoin pre.
Proof.
  revert seen. induction links as [|link links IH]; intros seen; simpl.
  { by intros ?%elem_of_nil. }
  case_decide as Hkey.
  - intros (pre & l & post & -> & -> & Hnew)%IH.
    exists (link :: pre), l, post. split_and!; [done..|].
    rewrite (keys_of_cons urljoin).
    intros [H|[H%elem_of_singleton|H]%elem_of_union]%elem_of_union; apply Hnew.
    + by apply elem_of_union_l.
    + rewrite H. by apply elem_of_union_l.
    + by apply elem_of_union_r.
  - rewrite filter_new_acc. intros [->|Hin]%elem_of_cons.
    + exists [], link, links. split_and!; [done..|].
      unfold keys_of. simpl. by rewrite union_empty_r_L.
    + apply IH in Hin as (pre & l & post & -> & -> & Hnew).
      exists (link :: pre), l, post. split_and!; [done..|].
      rewrite (keys_of_cons urljoin).
      intros [H|[H|H]%elem_of_union]%elem_of_union; apply Hnew.
      * apply elem_of_union_l. by apply elem_of_union_r.
      * apply elem_of_union_l. by apply elem_of_union_l.
      * by apply elem_of_union_r.
Qed.

Lemma filter_new_split pre link post seen :
  (filter_new (pre ++ link :: post) seen []).2
  = (filter_new pre seen []).2
    ++ (if decide (dedup_key (absolute link) ∈ seen ∪ keys_of urljoin pre)
        then [] else [absolute link])
    ++ (filter_new post (seen ∪ keys_of urljoin (pre ++ [link])) []).2.
Proof.
  rewrite filter_new_app. simpl.
  rewrite filter_new_seen.
  assert (seen ∪ keys_of urljoin (pre ++ [link])
          = {[dedup_key (absolute link)]} ∪ (seen ∪ keys_of urljoin pre)) as Hkeys.
  { rewrite (keys_of_app urljoin), (keys_of_cons urljoin). set_solver. }
  case_decide as Hkey.
  - rewrite filter_new_acc. simpl. f_equal. f_equal. f_equal.
    rewrite Hkeys. set_solver.
  - rewrite filter_new_acc, <- app_assoc. by rewrite Hkeys.
Qed.

(** X10. Of the links of one listing page, exactly the first link of
    every key that the style has not seen is kept as new, in the order
    of the page: a link is new if and only if its key is neither in the
    seen-set nor the key of a link before it on the page.  The new
    links have keys that are pairwise different, and the seen-set takes
    the keys of all the links. *)
Theorem new_links_one_per_key links seen :
  NoDup (dedup_key <$> (filter_new links seen []).2)
  ∧ (∀ url, url ∈ (filter_new links seen []).2 →
       (dedup_key url ∉ seen) ∧ ∃ link, link ∈ links ∧ url = absolute link)
  ∧ (filter_new links seen []).1 = seen ∪ keys_of urljoin links
  ∧ (∀ url, url ∈ (filter_new links seen []).2 ↔
       ∃ pre link post,
         links = pre ++ link :: post ∧ url = absolute link
         ∧ dedup_key url ∉ seen ∪ keys_of urljoin pre)
  ∧ (∀ pre link post, links = pre ++ link :: post →
       (filter_new links seen []).2
       = (filter_new pre seen []).2
         ++ (if decide (dedup_key (absolute link) ∈ seen ∪ keys_of urljoin pre)
             then [] else [absolute link])
         ++ (filter_new post (seen ∪ keys_of urljoin (pre ++ [link])) []).2).
Proof.
  destruct (filter_new_distinct links seen []) as [Hnd Hin].
  { constructor. } { by intros url ?%elem_of_nil. }
  split_and!; [done| | | |].
  - by intros url [?%elem_of_nil|?]%Hin.
  - apply filter_new_seen.
  - intros url. split; [apply filter_new_first|].
    intros (pre & link & post & -> & -> & Hnew). rewrite filter_new_split.
    rewrite decide_False by done. set_solver.
  - intros pre link post ->. apply filter_new_split.
Qed.

End CrawlFacts.

(** ** Further properties of the link extractor *)

Lemma lstrip_head s :
  match Py.lstrip s with
  | EmptyString => True
  | String c _ => Py.is_space c = false
  end.
Proof.
  induction s as [|c s IH]; [done|]. simpl. by destruct (Py.is_space c) eqn:Hc; [|simpl].
Qed.

Lemma rstrip_idem s : Py.rstrip (Py.rstrip s) = Py.rstrip s.
Proof.
  induction s as [|c s IH]; [done|]. simpl.
  destruct (Py.rstrip s) as [|c' t'] eqn:Hs.
  - destruct (Py.is_space c) eqn:Hc; [done|]. simpl. by rewrite Hc.
  - cbn [Py.rstrip]. cbn [Py.rstrip] in IH. by rewrite IH.
Qed.

Lemma lstrip_rstrip c s :
  Py.is_space c = false → Py.lstrip (Py.rstrip (String c s)) = Py.rstrip (String c s).
Proof.
  intros Hc. simpl. destruct (Py.rstrip s); rewrite ?Hc; simpl; by rewrite Hc.
Qed.

Lemma strip_idem s : stripped (Py.strip s).
Proof.
  unfold stripped, Py.strip. pose proof (lstrip_head s) as Hhead.
  destruct (Py.lstrip s) as [|c t]; [done|].
  by rewrite lstrip_rstrip, rstrip_idem.
Qed.

Lemma variants_loop_stripped variants acc urls :
  Forall stripped acc → variants_loop variants acc = Ret urls → Forall stripped urls.
Proof.
  revert acc. induction variants as [|v variants IH]; intros acc Hacc; simpl.
  { by intros [= <-]. }
  unfold variant_url.
  destruct (json_truthy _ && is_dict _)%bool; simpl; [|by apply IH].
  destruct (json_truthy _); simpl; [|by apply IH].
  destruct (get_if_dict "url" _); simpl; try done.
  apply IH. apply Forall_app. split; [done|]. constructor; [apply strip_idem|done].
Qed.

Lemma events_loop_stripped events acc urls :
  Forall stripped acc → events_loop events acc = Ret urls → Forall stripped urls.
Proof.
  revert acc. induction events as [|ev events IH]; intros acc Hacc; simpl.
  { by intros [= <-]. }
  destruct (event_urls ev acc) as [urls'|] eqn:Hev; simpl; [|done].
  apply IH. revert Hev. unfold event_urls.
  repeat (case_match; try (by intros [= <-])). by apply variants_loop_stripped.
Qed.

Lemma scripts_loop_stripped scripts acc urls :
  Forall stripped acc → scripts_loop scripts acc = Ret urls → Forall stripped urls.
Proof.
  revert acc. induction scripts as [|s scripts IH]; intros acc Hacc; simpl.
  { by intros [= <-]. }
  destruct s as [| |events]; [by apply IH|done|].
  destruct (py_iter events) as [evs|]; simpl; [|done].
  destruct (events_loop evs acc) as [urls'|] eqn:Hevs; simpl; [|done].
  pose proof (events_loop_stripped evs acc urls' Hacc Hevs) as Hurls'.
  destruct urls'; [by apply IH|]. by intros [= <-].
Qed.

(** X12. Every link that the extractor returns has no white space
    around it, whichever strategy supplied it. *)
Theorem links_are_stripped page : Forall stripped (collection_links page).
Proof.
  destruct page as [pg|]; [|constructor]. unfold collection_links.
  assert (Forall stripped (structured_data_urls pg)) as Hjson.
  { unfold structured_data_urls.
    destruct (scripts_loop _ _) as [urls|] eqn:Hloop; [|constructor].
    by eapply scripts_loop_stripped. }
  destruct (structured_data_urls pg); [|done].
  destruct (select_cards pg selectors []) as [|card cards].
  - rewrite generic_urls_spec, app_nil_l. apply Forall_forall.
    intros url [elem [_ Hurl]]%list_elem_of_omap.
    destruct (anchor_href elem) as [[|c href]|]; try done.
    injection Hurl as <-. apply strip_idem.
  - rewrite card_urls_spec, app_nil_l. apply Forall_forall.
    intros url [elem [_ Hurl]]%list_elem_of_omap. unfold parse_product_card in Hurl.
    destruct (anchor_href elem) as [href|]; [|done].
    destruct (Py.strip href) eqn:Hstrip; [done|]. injection Hurl as <-.
    rewrite <- Hstrip. apply strip_idem.
Qed.

Lemma variants_loop_raise variants variant acc :
  variant ∈ variants → variant_url variant = Raise → variants_loop variants acc = Raise.
Proof.
  intros Hin Hraise. revert acc. induction Hin as [v vs|v v' vs _ IH]; intros acc; simpl.
  - by rewrite Hraise.
  - destruct (variant_url v') as [[u|]|]; simpl; [by apply IH..|done].
Qed.

Lemma events_loop_raise events ev acc :
  ev ∈ events → (∀ acc', event_urls ev acc' = Raise) → events_loop events acc = Raise.
Proof.
  intros Hin Hraise. revert acc. induction Hin as [e es|e e' es _ IH]; intros acc; simpl.
  - by rewrite Hraise.
  - destruct (event_urls e' acc); simpl; [by apply IH|done].
Qed.

Lemma variant_url_not_text_raise variant :
  variant_url_not_text variant → variant_url variant = Raise.
Proof.
  intros (prod & url & Hprod & Hurl & Htruthy & Htext). unfold variant_url.
  rewrite Hprod. simpl. rewrite Hurl in *.
  destruct prod as [|entry prod]; [by subst url|]. simpl. rewrite Htruthy.
  destruct url; try done. by destruct (Htext s).
Qed.

(** X11. When the payload of the first [data-events] script has, in a
    [collection_viewed] event, a variant whose product URL is neither
    empty nor a text, the URLs found in the payload are all dropped:
    the structured data yields nothing and the links are those of the
    markup. *)
Theorem bad_variant_discards_payload (pg : soup) events rest details collection variants
    variant :
  data_event_scripts pg = Events (JList events) :: rest →
  JList [JStr "collection_viewed"; details] ∈ events →
  get_if_dict "collection" details = JDict collection →
  dict_get "productVariants" collection = JList variants →
  variant ∈ variants → variant_url_not_text variant →
  structured_data_urls pg = []
  ∧ collection_links (Some pg) = collection_links (Some (without_scripts pg)).
Proof.
  intros Hscripts Hev Hcoll Hvars Hin Hbad.
  assert (scripts_loop (data_event_scripts pg) [] = Raise) as Hraise.
  { rewrite Hscripts. simpl. rewrite (events_loop_raise events _ [] Hev); [done|].
    intros acc. simpl. rewrite Hcoll. simpl.
    destruct collection as [|entry collection]; [done|]. simpl. simpl in Hvars.
    rewrite Hvars. destruct variants as [|v vs]; [by apply elem_of_nil in Hin|].
    by eapply variants_loop_raise, variant_url_not_text_raise. }
  unfold collection_links, structured_data_urls. by rewrite Hraise.
Qed.

Lemma variants_loop_urls variants urls acc :
  Forall2 variant_has_url variants urls →
  variants_loop variants acc = Ret (acc ++ (Py.strip <$> urls)).
Proof.
  intros Hall. revert acc.
  induction Hall as [|v u vs us (prod & Hprod & Hurl & Hne) _ IH]; intros acc; simpl.
  { by rewrite app_nil_r. }
  unfold variant_url. rewrite Hprod. simpl.
  destruct prod as [|entry prod]; [done|]. simpl. simpl in Hurl. rewrite Hurl. simpl.
  rewrite truthy_ne by done. simpl. rewrite IH. by rewrite <- app_assoc.
Qed.

Lemma events_loop_other events acc :
  Forall other_event events → events_loop events acc = Ret acc.
Proof.
  induction 1 as [|ev events (name & details & -> & Hname) _ IH]; [done|]. simpl.
  apply String.eqb_neq in Hname. by rewrite Hname.
Qed.

(** X13. For a payload of the shop theme — one [collection_viewed]
    event among events of other names, whose variants all carry a
    product URL — the links of the page are the URLs of the variants,
    stripped, in the order of the payload; the markup is not read. *)
Theorem links_of_payload (pg : soup) before after rest details collection variants urls :
  data_event_scripts pg
  = Events (JList (before ++ JList [JStr "collection_viewed"; details] :: after)) :: rest →
  Forall other_event before → Forall other_event after →
  get_if_dict "collection" details = JDict collection →
  dict_get "productVariants" collection = JList variants →
  Forall2 variant_has_url variants urls → urls ≠ [] →
  collection_links (Some pg) = Py.strip <$> urls.
Proof.
  intros Hscripts Hbefore Hafter Hcoll Hvars Hall Hne.
  assert (events_loop (before ++ JList [JStr "collection_viewed"; details] :: after) []
          = Ret (Py.strip <$> urls)) as Hloop.
  { assert (∀ l1 l2 acc, events_loop (l1 ++ l2) acc
              = events_loop l1 acc ≫= events_loop l2) as Happ.
    { induction l1 as [|e l1 IH]; intros l2 acc; simpl; [done|].
      destruct (event_urls e acc); simpl; [apply IH|done]. }
    rewrite Happ, events_loop_other by done. simpl. rewrite Hcoll. simpl.
    destruct collection as [|entry collection]; [done|]. simpl. simpl in Hvars.
    rewrite Hvars. destruct Hall as [|v u vs us Hv Hvs]; [done|].
    rewrite (variants_loop_urls (v :: vs) (u :: us)) by (by constructor). simpl.
    by rewrite events_loop_other. }
  unfold collection_links, structured_data_urls. rewrite Hscripts. simpl.
  rewrite Hloop. simpl. by destruct urls.
Qed.

(** ** [login] *)

Lemma dict_lookup_set key key' value d :
  dict_lookup key (dict_set key' value d)
  = if String.eqb key' key then Some value else dict_lookup key d.
Proof.
  induction d as [|[k v] d IH]; simpl.
  - done.
  - destruct (String.eqb_spec k key') as [->|Hk]; simpl.
    + by destruct (String.eqb key' key).
    + destruct (String.eqb_spec key' key) as [->|Hkey].
      * apply String.eqb_neq in Hk. by rewrite Hk.
      * by rewrite IH.
Qed.

Lemma dict_lookup_keys key d : key ∈ d.*1 ↔ is_Some (dict_lookup key d).
Proof.
  induction d as [|[k v] d IH]; simpl.
  - split; [by intros ?%elem_of_nil|by intros [? ?]].
  - rewrite elem_of_cons, IH. destruct (String.eqb_spec k key) as [->|Hk].
    + split; [by eexists|by left].
    + split; [by intros [?|?]|by right].
Qed.

Section LoginFacts.
Context {W : Type}.
Variable EMAIL PASSWORD : string.
Variable urljoin : string → string → string.
Variable session_get_login : W → string → W * exn login_page.
Variable session_post : W → string → list (string * string) → W * exn post_response.

#[local] Abbreviation fill_credentials := (fill_credentials EMAIL PASSWORD).
#[local] Abbreviation with_credentials := (with_credentials EMAIL PASSWORD).
#[local] Abbreviation login_request := (login_request EMAIL PASSWORD urljoin).
#[local] Abbreviation login :=
  (login EMAIL PASSWORD urljoin session_get_login session_post).

(** The loop over the keys: the keys taken for the e-mail address get
    it, those taken for the password get it, the others keep their
    value. *)
Lemma fill_credentials_spec keys payload ie ip :
  let r := fill_credentials keys payload ie ip in
  (∀ key, dict_lookup key r.1.1 =
          if bool_decide (key ∈ keys) && email_key key then Some EMAIL
          else if bool_decide (key ∈ keys) && password_key key then Some PASSWORD
          else dict_lookup key payload)
  ∧ r.1.2 = ie || existsb email_key keys
  ∧ r.2 = ip || existsb password_key keys.
Proof.
  revert payload ie ip. induction keys as [|k keys IH]; intros payload ie ip; simpl.
  { split; [done|]. by rewrite !orb_false_r. }
  fold (email_key k). unfold password_key at 2.
  destruct (email_key k) eqn:Hemail; simpl.
  - destruct (IH (dict_set k EMAIL payload) true ip) as (Hlook & -> & ->).
    split_and!; [|by rewrite orb_true_r|done].
    intros key. rewrite Hlook, dict_lookup_set.
    destruct (String.eqb_spec k key) as [<-|Hne].
    + rewrite (bool_decide_eq_true_2 (k ∈ k :: keys)) by apply list_elem_of_here. rewrite Hemail. simpl.
      unfold password_key. rewrite Hemail. simpl. rewrite andb_false_r.
      by destruct (bool_decide _).
    + assert (bool_decide (key ∈ k :: keys) = bool_decide (key ∈ keys)) as ->; [|done].
      apply bool_decide_ext. rewrite elem_of_cons. naive_solver.
  - destruct (contains "pass" (str_lower k)) eqn:Hpass; simpl.
    + destruct (IH (dict_set k PASSWORD payload) ie true) as (Hlook & -> & ->).
      split_and!; [|done|by rewrite orb_true_r].
      intros key. rewrite Hlook, dict_lookup_set.
      destruct (String.eqb_spec k key) as [<-|Hne].
      * rewrite (bool_decide_eq_true_2 (k ∈ k :: keys)) by apply list_elem_of_here. rewrite Hemail. simpl.
        unfold password_key. rewrite Hemail, Hpass. simpl. rewrite andb_false_r.
        by destruct (bool_decide _).
      * assert (bool_decide (key ∈ k :: keys) = bool_decide (key ∈ keys)) as ->; [|done].
        apply bool_decide_ext. rewrite elem_of_cons. naive_solver.
    + destruct (IH payload ie ip) as (Hlook & -> & ->). split_and!; [|done..].
      intros key. rewrite Hlook.
      destruct (String.eqb_spec k key) as [<-|Hne].
      * unfold password_key. rewrite Hemail, Hpass. simpl. by rewrite !andb_false_r.
      * assert (bool_decide (key ∈ k :: keys) = bool_decide (key ∈ keys)) as ->; [|done].
        apply bool_decide_ext. rewrite elem_of_cons. naive_solver.
Qed.

#[local] Arguments String.eqb : simpl never.

Lemma existsb_elem (P : string → bool) keys :
  existsb P keys = true → ∃ key, key ∈ keys ∧ P key = true.
Proof.
  intros (key & Hin & HP)%existsb_exists. exists key. split; [|done].
  by apply list_elem_of_In.
Qed.

(** What the payload holds under a key once the credentials are in. *)
Lemma with_credentials_lookup payload key :
  dict_lookup key (with_credentials payload) =
    if bool_decide (key ∈ payload.*1) && email_key key then Some EMAIL
    else if bool_decide (key ∈ payload.*1) && password_key key then Some PASSWORD
    else if String.eqb "password" key && negb (existsb password_key (payload.*1))
    then Some PASSWORD
    else if String.eqb "email" key && negb (existsb email_key (payload.*1))
    then Some EMAIL
    else dict_lookup key payload.
Proof.
  unfold with_credentials.
  destruct (fill_credentials_spec (payload.*1) payload false false) as (Hlook & Hie & Hip).
  destruct (fill_credentials _ _ _ _) as [[filled ie] ip]. simpl in *. subst ie ip.
  assert (∀ class, (∀ k, class k = true → bool_decide (k ∈ payload.*1) = true →
                           existsb class (payload.*1) = true)) as Hex.
  { intros class k Hk Hin%bool_decide_eq_true. apply existsb_exists.
    exists k. split; [by apply list_elem_of_In|done]. }
  destruct (existsb password_key (payload.*1)) eqn:Hp;
    destruct (existsb email_key (payload.*1)) eqn:He; simpl;
    rewrite ?dict_lookup_set, ?andb_false_r, ?andb_true_r, Hlook.
  - done.
  - destruct (String.eqb_spec "email" key) as [<-|]; [|done].
    destruct (bool_decide ("email" ∈ payload.*1)) eqn:Hin; [|done].
    by rewrite (Hex email_key "email") in He.
  - destruct (String.eqb_spec "password" key) as [<-|]; [|done].
    destruct (bool_decide ("password" ∈ payload.*1)) eqn:Hin; [|done].
    by rewrite (Hex password_key "password") in Hp.
  - destruct (String.eqb_spec "password" key) as [<-|Hnp].
    + destruct (bool_decide ("password" ∈ payload.*1)) eqn:Hin; [|done].
      by rewrite (Hex password_key "password") in Hp.
    + destruct (String.eqb_spec "email" key) as [<-|]; [|done].
      destruct (bool_decide ("email" ∈ payload.*1)) eqn:Hin; [|done].
      by rewrite (Hex email_key "email") in He.
Qed.

(** X14. Whatever the inputs of the login form, the payload that
    [login] posts carries the e-mail address under some key and the
    password under some key; a field whose name has neither [email],
    [username] nor [pass] in it, such as a hidden token, is posted with
    the value it has in the form. *)
Theorem login_posts_credentials (form : form_tag) :
  let fields := collect_inputs (form_inputs form) [] in
  let payload := (login_request form).2 in
  (∃ key, dict_lookup key payload = Some EMAIL)
  ∧ (∃ key, dict_lookup key payload = Some PASSWORD)
  ∧ (∀ key, email_key key = false → contains "pass" (str_lower key) = false →
        dict_lookup key payload = dict_lookup key fields).
Proof.
  intros fields payload. subst payload. unfold login_request. simpl. fold fields.
  split_and!.
  - destruct (existsb email_key (fields.*1)) eqn:He.
    + apply existsb_elem in He as (key & Hin & Hkey). exists key.
      rewrite with_credentials_lookup, Hkey. by rewrite bool_decide_eq_true_2.
    + exists "email". rewrite with_credentials_lookup, He.
      replace (email_key "email") with true by (by vm_compute).
      replace (password_key "email") with false by (by vm_compute).
      by destruct (bool_decide _).
  - destruct (existsb password_key (fields.*1)) eqn:Hp.
    + apply existsb_elem in Hp as (key & Hin & Hkey). exists key.
      rewrite with_credentials_lookup, Hkey. rewrite bool_decide_eq_true_2 by done.
      unfold password_key in Hkey. apply andb_true_iff in Hkey as [Hkey _].
      apply negb_true_iff in Hkey. by rewrite Hkey.
    + exists "password". rewrite with_credentials_lookup, Hp.
      replace (email_key "password") with false by (by vm_compute).
      replace (password_key "password") with true by (by vm_compute).
      destruct (bool_decide ("password" ∈ fields.*1)) eqn:Hin; [|done].
      apply bool_decide_eq_true in Hin. apply list_elem_of_In in Hin.
      assert (existsb password_key fields.*1 = true) as Hp'; [|congruence].
      apply existsb_exists. by exists "password".
  - intros key Hemail Hpass. rewrite with_credentials_lookup.
    unfold password_key. rewrite Hemail, Hpass. simpl. rewrite !andb_false_r.
    destruct (String.eqb_spec "password" key) as [<-|]; [by vm_compute in Hpass|].
    destruct (String.eqb_spec "email" key) as [<-|]; [by vm_compute in Hemail|].
    done.
Qed.

Lemma login_form_none forms :
  Forall (λ frm, has_password_input frm = false) forms → login_form forms = None.
Proof. induction 1 as [|frm forms Hfrm _ IH]; [done|]. simpl. by rewrite Hfrm. Qed.

(** X15. [login] gives up without posting anything when the login page
    cannot be fetched (the request raises, or its status is 4xx or 5xx)
    and when no form of the page has a password input: it returns
    [False] after the one request. *)
Theorem login_without_form (w : W) :
  let r := session_get_login w (BASE_URL +:+ "/account/login") in
  (r.2 = Raise
   ∨ ∃ resp, r.2 = Ret resp
             ∧ (http_error (login_status resp) = true
                ∨ Forall (λ frm, has_password_input frm = false) (forms resp))) →
  login w = (r.1, false).
Proof.
  intros r Hr. subst r. unfold login.
  destruct (session_get_login w _) as [w' r]. simpl in *.
  destruct Hr as [-> | (resp & -> & [Herr | Hforms])]; [done|by rewrite Herr|].
  destruct (http_error _); [done|]. by rewrite login_form_none.
Qed.

End LoginFacts.

Lemma prefix_app n b : String.prefix n (n +:+ b) = true.
Proof.
  induction n as [|c n IH]; simpl; [by destruct b|]. by destruct (ascii_dec c c).
Qed.

Lemma prefix_elim n s : String.prefix n s = true → ∃ b, s = n +:+ b.
Proof.
  revert s. induction n as [|c n IH]; intros s.
  - intros _. by exists s.
  - destruct s as [|c' s]; [done|]. simpl.
    destruct (ascii_dec c c') as [<-|]; [|done].
    intros [b ->]%IH. by exists b.
Qed.

(** [needle in hay] is the test for a part of the text. *)
Lemma contains_spec needle hay :
  contains needle hay = true ↔ ∃ a b, hay = a +:+ needle +:+ b.
Proof.
  split.
  - induction hay as [|c hay IH]; cbn [contains].
    + rewrite orb_false_r. intros [b Hb]%prefix_elim. by exists "", b.
    + intros [[b ->]%prefix_elim | (a & b & ->)%IH]%orb_true_iff.
      * by exists "", b.
      * by exists (String c a), b.
  - intros (a & b & ->). induction a as [|c a IH].
    + rewrite sapp_nil_l. destruct (needle +:+ b) eqn:Hnb; cbn [contains];
        rewrite <- Hnb, prefix_app; done.
    + rewrite sapp_cons. cbn [contains]. by rewrite IH, orb_true_r.
Qed.

(** X16. The third of the tests by which [login] recognises the field
    of the e-mail address never decides: a key that has
    [customer[email]] in it has [email] in it. *)
Theorem customer_email_test_redundant (key : string) :
  email_key key
  = contains "email" (str_lower key) || contains "username" (str_lower key).
Proof.
  unfold email_key. destruct (contains "customer[email]" _) eqn:Hc; [|by rewrite orb_false_r].
  apply contains_spec in Hc as (a & b & Hkey).
  assert (contains "email" (str_lower key) = true) as ->; [|done].
  apply contains_spec. exists (a +:+ "customer["), ("]" +:+ b). rewrite Hkey. by str_norm.
Qed.

(** X17. An image is requested only for a product page that was
    parsed, and once at most: the crawl of a category attempts no more
    downloads than it has products in the catalog. *)
Theorem downloads_bounded_by_products {W : Type} urljoin
    (session_get : W → string → W * exn response) w fs cat :
  let run := process_category urljoin session_get w fs cat in
  length (downloads (trace run)) ≤ size (collected run).
Proof.
  intros run.
  assert (size (collected run) = parsed (trace run)
          ∧ length (downloads (trace run)) ≤ parsed (trace run)) as [-> ?]; [|done].
  apply (crawl_invariant urljoin session_get
    (λ st, size (collected st) = parsed (trace st)
           ∧ length (downloads (trace st)) ≤ parsed (trace st))).
  - intros st url [Hsize Hdown].
    destruct (visit_shapes urljoin session_get (path_join "output" (cat_id cat)) st url)
      as [-> | [(w' & Hkey & ->) | (w' & product & img_url & Hkey & _ & Hshape)]]; simpl.
    + done.
    + done.
    + destruct Hshape as [-> | (_ & _ & w'' & ok & ->)]; simpl;
        rewrite map_size_insert_None by done; rewrite ?length_app; simpl; lia.
  - intros st w' page url links [Hsize Hdown]. done.
  - simpl. by rewrite map_size_empty.
Qed.

(** ** The further properties at work *)

Lemma price_from_digits_and_dots_witness :
  extract_price (detail_page "S8/SB30" "From $1,299.99" "a.jpg")
  = Ret (Some (Float "1299.99"))
  ∧ extract_price (detail_page "S8/SB30" "$1.312.00" "a.jpg") = Ret None.
Proof.
  split.
  - destruct (proj2 (price_from_digits_and_dots (detail_page "S8/SB30" "From $1,299.99" "a.jpg"))
                "From $1,299.99" eq_refl) as [[H _]|[H _]].
    + exact H.
    + vm_compute in H. discriminate H.
  - destruct (proj2 (price_from_digits_and_dots (detail_page "S8/SB30" "$1.312.00" "a.jpg"))
                "$1.312.00" eq_refl) as [[H _]|[H _]].
    + vm_compute in H. discriminate H.
    + exact H.
Defined.

Lemma product_id_from_title_witness :
  default "Sink Base S8/SB30, 30 in" (Re.search product_id_pattern "Sink Base S8/SB30, 30 in")
  = "S8" +:+ "/" +:+ "SB30".
Proof.
  destruct (product_id_from_title "Sink Base S8/SB30, 30 in") as (_ & _ & Hfirst & _).
  apply (Hfirst "Sink Base " "S8" "SB30" ", 30 in").
  - reflexivity.
  - split; [reflexivity|discriminate].
  - split; [reflexivity|discriminate].
  - reflexivity.
  - intros p1 p2 Heq Hne Hid. apply starts_with_id_exec in Hid.
    repeat (destruct p1 as [|? p1];
            [rewrite sapp_nil_l in Heq; subst p2; vm_compute in Hid;
             destruct Hid as [? Hid]; discriminate Hid
            |rewrite sapp_cons in Heq; injection Heq as <- Heq]).
    destruct p1; [rewrite sapp_nil_l in Heq; by subst p2|].
    rewrite sapp_cons in Heq. discriminate Heq.
Defined.

Lemma product_image_name_safe_witness :
  Py.all filename_char "S8_SB30__1_.jpg" = true
  ∧ Py.mem "/" "S8_SB30__1_.jpg" = false
  ∧ Py.mem "?" "S8_SB30__1_.jpg" = false.
Proof.
  apply (product_image_name_safe
    (Some (detail_page "S8/SB30" "$312.00"
             "https://cdn.shopify.com/s/files/S8 SB30 (1)_352x192.jpg?v=1"))
    (Product.make "S8/SB30" "S8/SB30" (Some (Float "312.00")) "" "S8_SB30__1_.jpg")
    "https://cdn.shopify.com/s/files/S8 SB30 (1).jpg?v=1").
  vm_compute. reflexivity.
Defined.

Lemma failed_listing_ends_style_witness :
  trace (process_style example_urljoin two_scheme_site sink_base (start ()) "s1")
  = [Listing 1 "https://www.jkcabinetry.com/collections/s1-sink-base-cabinet" []].
Proof.
  rewrite (proj2 (failed_listing_ends_style example_urljoin two_scheme_site sink_base
                    (start ()) "s1")).
  - reflexivity.
  - vm_compute. intros H. discriminate H.
Defined.

Lemma failed_product_page_skipped_witness :
  trace (visit example_urljoin two_scheme_site "output/c" (start ()) "/products/s8-sb99")
  = [Detail "/products/s8-sb99" false].
Proof.
  rewrite (failed_product_page_skipped example_urljoin two_scheme_site "output/c" (start ())
             "/products/s8-sb99").
  - reflexivity.
  - vm_compute. reflexivity.
  - vm_compute. intros H. discriminate H.
Defined.

Lemma download_only_missing_files_witness :
  downloads (trace (visit example_urljoin two_scheme_site "output/c"
                      {| world := (); files := {["output/c/S8-SB33.jpg"]};
                         collected := ∅; trace := [] |}
                      "http://www.jkcabinetry.com/products/s8-sb33"))
  = [].
Proof.
  destruct (download_only_missing_files example_urljoin two_scheme_site "output/c"
    {| world := (); files := {["output/c/S8-SB33.jpg"]}; collected := ∅; trace := [] |}
    "http://www.jkcabinetry.com/products/s8-sb33" ()
    (Product.make "S8/SB33" "S8/SB33 Sink Base" (Some (Float "334.00")) "" "S8-SB33.jpg")
    "https://cdn.shopify.com/s/files/S8-SB33.jpg?v=1") as [Hkept _].
  - vm_compute. reflexivity.
  - vm_compute. reflexivity.
  - rewrite Hkept.
    + reflexivity.
    + right. apply elem_of_singleton. vm_compute. reflexivity.
Defined.

Lemma downloads_spare_existing_files_witness :
  ("output/689cba9eca19d8fef712c080/S8-SB30.jpg" ∉ empty_folder)
  ∧ ∃ key product t,
      Put key product
        :: Download "https://cdn.shopify.com/s/files/S8-SB30.jpg?v=1"
             "output/689cba9eca19d8fef712c080/S8-SB30.jpg" false :: t
        `suffix_of` trace (process_category example_urljoin two_scheme_site () empty_folder
                             sink_base)
      ∧ "output/689cba9eca19d8fef712c080/S8-SB30.jpg"
        = path_join (path_join "output" (cat_id sink_base)) (Product.image product)
      ∧ Product.image product ≠ "" ∧ Product.image product ≠ "."
      ∧ Product.image product ≠ ".."
      ∧ Py.all filename_char (Product.image product) = true.
Proof.
  refine (downloads_spare_existing_files example_urljoin two_scheme_site () empty_folder
            sink_base "https://cdn.shopify.com/s/files/S8-SB30.jpg?v=1"
            "output/689cba9eca19d8fef712c080/S8-SB30.jpg" false _ _).
  - split; [apply elem_of_union_l|apply elem_of_union_r]; apply elem_of_singleton;
      vm_compute; reflexivity.
  - apply list_elem_of_In. vm_compute. tauto.
Defined.

Lemma bad_variant_discards_payload_witness :
  collection_links (Some numbered_listing) = ["/products/s8-sb36"].
Proof.
  destruct (bad_variant_discards_payload numbered_listing
    [JList [JStr "collection_viewed";
            JDict [("collection",
              JDict [("productVariants",
                       JList [JDict [("product", JDict [("url", JStr "/products/s8-sb30")])];
                              JDict [("product", JDict [("url", JNum 42)])]])])]]]
    []
    (JDict [("collection",
       JDict [("productVariants",
                JList [JDict [("product", JDict [("url", JStr "/products/s8-sb30")])];
                       JDict [("product", JDict [("url", JNum 42)])]])])])
    [("productVariants",
       JList [JDict [("product", JDict [("url", JStr "/products/s8-sb30")])];
              JDict [("product", JDict [("url", JNum 42)])]])]
    [JDict [("product", JDict [("url", JStr "/products/s8-sb30")])];
     JDict [("product", JDict [("url", JNum 42)])]]
    (JDict [("product", JDict [("url", JNum 42)])])) as [_ Hlinks].
  - reflexivity.
  - apply list_elem_of_here.
  - reflexivity.
  - reflexivity.
  - apply list_elem_of_further, list_elem_of_here.
  - exists [("url", JNum 42)], (JNum 42).
    split; [reflexivity|]. split; [reflexivity|]. split; [reflexivity|].
    intros s H. discriminate H.
  - rewrite Hlinks. vm_compute. reflexivity.
Defined.

Lemma links_of_payload_witness :
  collection_links (Some shopify_listing) = ["/products/s8-sb30"; "/products/s8-sb33"].
Proof.
  rewrite (links_of_payload shopify_listing
    [JList [JStr "page_viewed"; JDict []]] [] []
    (JDict [("collection",
       JDict [("id", JStr "268501745777");
              ("productVariants",
                JList [JDict [("price", JDict [("amount", JNum 312)]);
                              ("product", JDict [("title", JStr "S8/SB30");
                                                 ("url", JStr "/products/s8-sb30")])];
                       JDict [("product", JDict [("title", JStr "S8/SB33");
                                                 ("url", JStr " /products/s8-sb33 ")])]])])])
    [("id", JStr "268501745777");
     ("productVariants",
       JList [JDict [("price", JDict [("amount", JNum 312)]);
                     ("product", JDict [("title", JStr "S8/SB30");
                                        ("url", JStr "/products/s8-sb30")])];
              JDict [("product", JDict [("title", JStr "S8/SB33");
                                        ("url", JStr " /products/s8-sb33 ")])]])]
    [JDict [("price", JDict [("amount", JNum 312)]);
            ("product", JDict [("title", JStr "S8/SB30");
                               ("url", JStr "/products/s8-sb30")])];
     JDict [("product", JDict [("title", JStr "S8/SB33");
                               ("url", JStr " /products/s8-sb33 ")])]]
    ["/products/s8-sb30"; " /products/s8-sb33 "]).
  - vm_compute. reflexivity.
  - reflexivity.
  - constructor; [|constructor]. exists "page_viewed", (JDict []).
    split; [reflexivity|]. intros H. discriminate H.
  - constructor.
  - reflexivity.
  - reflexivity.
  - constructor; [|constructor; [|constructor]].
    + eexists. split; [reflexivity|]. split; [reflexivity|]. intros H. discriminate H.
    + eexists. split; [reflexivity|]. split; [reflexivity|]. intros H. discriminate H.
  - intros H. discriminate H.
Defined.

Lemma login_posts_credentials_witness :
  (login_request "buyer@example.org" "secret" example_urljoin shop_login_form).2
  = [("form_type", "customer_login"); ("utf8", "yes");
     ("customer[email]", "buyer@example.org"); ("customer[password]", "secret")]
  ∧ dict_lookup "form_type"
      (login_request "buyer@example.org" "secret" example_urljoin shop_login_form).2
    = Some "customer_login".
Proof.
  split; [vm_compute; reflexivity|].
  rewrite (proj2 (proj2 (login_posts_credentials "buyer@example.org" "secret" example_urljoin
                           shop_login_form)) "form_type");
    vm_compute; reflexivity.
Defined.

Lemma login_without_form_witness :
  login "buyer@example.org" "secret" example_urljoin no_login_site no_post () = ((), false).
Proof.
  apply (login_without_form "buyer@example.org" "secret" example_urljoin no_login_site
           no_post ()).
  right. eexists. split; [reflexivity|]. right. repeat constructor.
Defined.
